(** * tui-goggles: the terminal session engine

    A shallow embedding of package [terminal] (the PTY session, the query
    interceptor of the read loop and the polling waits) together with the
    properties its specification states about it.

    Conventions of the embedding:
    - Go [int] is [Z]; where the source does arithmetic that could leave the
      64-bit range the wrap-around is written out ([wrap64]), and the
      [uint16] conversions of the window size are written out ([uint16]).
    - [[]byte] is [list byte], indexed by [Z] as the source indexes by [int].
    - Everything the engine does to the outside world (spawning the child on a
      PTY, sizing the PTY, writing to it) is an [Event] appended to a [World];
      effectful functions live in the state monad [IO] over that world.
    - Whether an operating-system call fails is decided by an [OS] oracle.
    - The clock and the screen seen by the polling waits are given by a list
      of [Poll] observations, one per loop iteration. *)

From Stdlib Require Import ZArith List String Ascii Bool Lia DecimalString.
From Stdlib Require Import Strings.Byte.
Import ListNotations.
Open Scope Z_scope.

Set Implicit Arguments.

(** ** Integers and bytes *)

(** Two's-complement wrap-around of a Go [int] (64 bits). *)
Definition wrap64 (z : Z) : Z := (z + 2 ^ 63) mod 2 ^ 64 - 2 ^ 63.

(** The conversion [uint16(x)] of a Go [int]. *)
Definition uint16 (z : Z) : Z := z mod 2 ^ 16.

(** [math.MaxUint16] *)
Definition maxTerminalDimension : Z := 65535.

Definition bytes := list byte.

Definition ESC : byte := x1b.
Definition BEL : byte := x07.

(** [len(data)] *)
Definition len (data : bytes) : Z := Z.of_nat (List.length data).

(** [data[i]]; every access of the source is guarded by a bounds test, the
    default is never what a guarded access returns. *)
Definition at_ (data : bytes) (i : Z) : byte := nth (Z.to_nat i) data x00.

Definition bytes_of (s : string) : bytes := list_byte_of_string s.

(** [fmt.Sprintf("%d", z)] *)
Definition itoa (z : Z) : bytes := bytes_of (NilZero.string_of_int (Z.to_int z)).

(** ** The outside world *)

(** [pty.Winsize], both fields [uint16]. *)
Record Winsize := mkWinsize { ws_rows : Z; ws_cols : Z }.

(** An error of the operating system (an errno). *)
Inductive OSError := Errno (code : Z).

(** What the engine asks of the operating system, in the order it asks. *)
Inductive Event :=
| EvStartWithSize (command : string) (args : list string) (ws : Winsize)
| EvSetsize (ws : Winsize)
| EvWriteString (s : bytes).

Definition World := list Event.

(** The operating system decides, from what happened so far, whether a call
    fails. *)
Record OS := mkOS {
  os_Environ : list string;
  start_error : World -> string -> list string -> Winsize -> option OSError;
  setsize_error : World -> Winsize -> option OSError
}.

(** The state monad over the world. *)
Definition IO (A : Type) : Type := World -> A * World.

Definition ret {A} (a : A) : IO A := fun w => (a, w).

Definition bind {A B} (m : IO A) (k : A -> IO B) : IO B :=
  fun w => let (a, w') := m w in k a w'.

Notation "x <- m ;; k" := (bind m (fun x => k))
  (at level 61, m at next level, right associativity).
Notation "m ;;; k" := (bind m (fun _ => k))
  (at level 61, right associativity).

Definition emit (e : Event) : IO unit := fun w => (tt, w ++ [e]).

(** The writes to the PTY recorded in a world, oldest first. *)
Fixpoint writes (w : World) : list bytes :=
  match w with
  | [] => []
  | EvWriteString s :: w' => s :: writes w'
  | _ :: w' => writes w'
  end.

(** The OS-level sizing calls recorded in a world. *)
Fixpoint sizings (w : World) : list Winsize :=
  match w with
  | [] => []
  | EvStartWithSize _ _ ws :: w' => ws :: sizings w'
  | EvSetsize ws :: w' => ws :: sizings w'
  | _ :: w' => sizings w'
  end.

(** ** The Virtual Screen Model (vt10x) *)

(** Where a model sends its own answers to queries. *)
Inductive Writer := Discard | PtyWriter.

Inductive TerminalOption :=
| WithSize (cols rows : Z)
| WithWriter (w : Writer).

(** Modelled from the spec: the Virtual Screen Model is the external library
    vt10x, whose source is not part of the repository.  The model keeps what
    the contract of the specification names: a size, the grid as lines of
    text, the cursor with its visibility, and the writer it answers
    device-status-report queries on. *)
Record VT := mkVT {
  vt_cols : Z;
  vt_rows : Z;
  vt_writer : Writer;
  vt_grid : list string;
  vt_cursor_row : Z;
  vt_cursor_col : Z;
  vt_cursor_visible : bool
}.

(** A line of [n] spaces. *)
Fixpoint spaces (n : nat) : string :=
  match n with
  | O => EmptyString
  | S n' => String " " (spaces n')
  end.

(** The grid of a blank screen: [rows] lines of [cols] spaces. *)
Definition blank_grid (cols rows : Z) : list string :=
  repeat (spaces (Z.to_nat cols)) (Z.to_nat rows).

Record TerminalInfo := mkInfo { info_w : Writer; info_cols : Z; info_rows : Z }.

Definition apply_option (info : TerminalInfo) (o : TerminalOption) : TerminalInfo :=
  match o with
  | WithSize c r => mkInfo (info_w info) c r
  | WithWriter w => mkInfo w (info_cols info) (info_rows info)
  end.

(** Modelled from the spec: [vt10x.New(opts...)], a fresh model of the given
    size with a blank grid; a model built without [WithWriter] has no PTY to
    answer on. *)
Definition vt10x_New (opts : list TerminalOption) : VT :=
  let info := fold_left apply_option opts (mkInfo Discard 80 24) in
  mkVT (info_cols info) (info_rows info) (info_w info)
       (blank_grid (info_cols info) (info_rows info)) 0 0 true.

Definition newline : string := String (ascii_of_byte x0a) EmptyString.

(** Modelled from the spec: the rendering of the grid, every line followed by
    a line feed. *)
Fixpoint render (grid : list string) : string :=
  match grid with
  | [] => EmptyString
  | l :: g => (l ++ newline ++ render g)%string
  end.

(** [vt.String()] *)
Definition vt_String (v : VT) : string := render (vt_grid v).

(** ** The session *)

Record Cmd := mkCmd { cmd_path : string; cmd_args : list string; cmd_env : list string }.

Record Terminal := mkTerminal {
  cmd : Cmd;
  vt : VT;
  rows : Z;
  cols : Z
}.

Record Options := mkOptions { Rows : Z; Cols : Z; Env : list string }.

Definition DefaultOptions : Options := mkOptions 24 80 [].

(** The errors the package returns. *)
Inductive Error :=
| ErrRows                      (* "rows must be between 0 and 65535" *)
| ErrCols                      (* "cols must be between 0 and 65535" *)
| ErrStartPTY (e : OSError)    (* "failed to start PTY: ..." *)
| ErrOS (e : OSError)          (* an error of the OS passed on as it is *)
| ErrStableTimeout             (* "timeout waiting for stable screen" *)
| ErrTextTimeout (text : string). (* "timeout waiting for text: ..." *)

(** The errors that reject a configuration. *)
Definition is_config_error (e : Error) : bool :=
  match e with
  | ErrRows | ErrCols => true
  | _ => false
  end.

(** ** The query interceptor *)

Module Interceptor.

Local Infix "==" := Byte.eqb (at level 70, no associativity).

(** [t.ptyFile.WriteString(s)]; the source drops its result. *)
Definition ptyFile_WriteString (s : bytes) : IO unit := emit (EvWriteString s).

(** The fixed answers. *)
Definition DA1_response : bytes := ESC :: bytes_of "[?62;4c".
Definition DA2_response : bytes := ESC :: bytes_of "[>1;0;0c".
Definition background_response : bytes :=
  ESC :: bytes_of "]11;rgb:0000/0000/0000" ++ [ESC; "\"%byte].
Definition foreground_response : bytes :=
  ESC :: bytes_of "]10;rgb:ffff/ffff/ffff" ++ [ESC; "\"%byte].

Definition respondToDA1 (t : Terminal) : IO unit :=
  let response := DA1_response in
  ptyFile_WriteString response.

Definition respondToDA2 (t : Terminal) : IO unit :=
  let response := DA2_response in
  ptyFile_WriteString response.

Definition respondToWindowSizePixels (t : Terminal) : IO unit :=
  let rows := rows t in
  let cols := cols t in
  let height := wrap64 (rows * 16) in
  let width := wrap64 (cols * 8) in
  let response :=
    ESC :: bytes_of "[4;" ++ itoa height ++ bytes_of ";" ++ itoa width ++ bytes_of "t" in
  ptyFile_WriteString response.

Definition respondToTextAreaSize (t : Terminal) : IO unit :=
  let rows := rows t in
  let cols := cols t in
  let response :=
    ESC :: bytes_of "[8;" ++ itoa rows ++ bytes_of ";" ++ itoa cols ++ bytes_of "t" in
  ptyFile_WriteString response.

Definition respondToScreenSize (t : Terminal) : IO unit :=
  let rows := rows t in
  let cols := cols t in
  let response :=
    ESC :: bytes_of "[9;" ++ itoa rows ++ bytes_of ";" ++ itoa cols ++ bytes_of "t" in
  ptyFile_WriteString response.

Definition respondToBackgroundColorQuery (t : Terminal) : IO unit :=
  let response := background_response in
  ptyFile_WriteString response.

Definition respondToForegroundColorQuery (t : Terminal) : IO unit :=
  let response := foreground_response in
  ptyFile_WriteString response.

(** The loop of [findOSCEnd]: [rest] is [data[i:]], so that [data[i]] is its
    head and [i+1 < len(data)] says that a second byte follows. *)
Fixpoint findOSCEnd_from (rest : bytes) (i : Z) : Z :=
  match rest with
  | [] => -1
  | b :: rest' =>
      if b == BEL then i + 1
      else if (b == ESC)
              && match rest' with
                 | c :: _ => c == "\"%byte
                 | [] => false
                 end
      then i + 2
      else findOSCEnd_from rest' (i + 1)
  end.

Definition findOSCEnd (t : Terminal) (data : bytes) (offset : Z) : Z :=
  findOSCEnd_from (skipn (Z.to_nat offset) data) offset.

Definition tryHandleXTWINOPS (t : Terminal) (data : bytes) (i : Z) : IO Z :=
  if i + 4 >=? len data then ret 0
  else if negb (at_ data (i + 2) == "1"%byte) then ret 0
  else if (at_ data (i + 3) == "4"%byte) && (at_ data (i + 4) == "t"%byte) then
    respondToWindowSizePixels t ;;; ret 5
  else if (at_ data (i + 3) == "8"%byte) && (at_ data (i + 4) == "t"%byte) then
    respondToTextAreaSize t ;;; ret 5
  else if (at_ data (i + 3) == "9"%byte) && (at_ data (i + 4) == "t"%byte) then
    respondToScreenSize t ;;; ret 5
  else ret 0.

Definition tryHandleCSIQuery (t : Terminal) (data : bytes) (i : Z) : IO Z :=
  let xtwinops :=
    skip <- tryHandleXTWINOPS t data i ;;
    if skip >? 0 then ret skip else ret 0 in
  if (i + 2 >=? len data) || negb (at_ data (i + 1) == "["%byte) then ret 0
  else if at_ data (i + 2) == "c"%byte then
    respondToDA1 t ;;; ret 3
  else if (i + 3 <? len data) && (at_ data (i + 2) == "0"%byte) && (at_ data (i + 3) == "c"%byte) then
    respondToDA1 t ;;; ret 4
  else if at_ data (i + 2) == ">"%byte then
    if (i + 3 <? len data) && (at_ data (i + 3) == "c"%byte) then
      respondToDA2 t ;;; ret 4
    else if (i + 4 <? len data) && (at_ data (i + 3) == "0"%byte) && (at_ data (i + 4) == "c"%byte) then
      respondToDA2 t ;;; ret 5
    else xtwinops
  else xtwinops.

Definition tryHandleOSCQuery (t : Terminal) (data : bytes) (i : Z) : IO Z :=
  let foreground :=
    if (at_ data (i + 2) == "1"%byte) && (at_ data (i + 3) == "0"%byte) && (at_ data (i + 4) == ";"%byte) then
      let end_ := findOSCEnd t data (i + 5) in
      if end_ >? i then respondToForegroundColorQuery t ;;; ret (end_ - i)
      else ret 0
    else ret 0 in
  if (i + 4 >=? len data) || negb (at_ data (i + 1) == "]"%byte) then ret 0
  else if (at_ data (i + 2) == "1"%byte) && (at_ data (i + 3) == "1"%byte) && (at_ data (i + 4) == ";"%byte) then
    let end_ := findOSCEnd t data (i + 5) in
    if end_ >? i then respondToBackgroundColorQuery t ;;; ret (end_ - i)
    else foreground
  else foreground.

Definition tryHandleQuery (t : Terminal) (data : bytes) (i : Z) : IO Z :=
  skip <- tryHandleCSIQuery t data i ;;
  if skip >? 0 then ret skip
  else
    skip <- tryHandleOSCQuery t data i ;;
    if skip >? 0 then ret skip else ret 0.

(** The scanning loop of [handleTerminalQueries].  Every iteration advances
    [i] by at least one, so [len(data)] iterations are enough; [None] is the
    loop cut short by the fuel. *)
Fixpoint scan (fuel : nat) (t : Terminal) (data : bytes) (i : Z) (result : bytes)
  : IO (option bytes) :=
  if i <? len data then
    match fuel with
    | O => ret None
    | S fuel' =>
        if (at_ data i == ESC) && (i + 1 <? len data) then
          skip <- tryHandleQuery t data i ;;
          if skip >? 0 then scan fuel' t data (i + skip) result
          else scan fuel' t data (i + 1) (result ++ [at_ data i])
        else scan fuel' t data (i + 1) (result ++ [at_ data i])
    end
  else ret (Some result).

Definition handleTerminalQueries (t : Terminal) (data : bytes) : IO (option bytes) :=
  scan (List.length data) t data 0 [].

End Interceptor.
Export Interceptor.

(** ** Creating, resizing and reading the session *)

Inductive Result (A : Type) :=
| Ok (a : A)
| Err (e : Error).

Arguments Ok {A} a.
Arguments Err {A} e.

(** [pty.StartWithSize(cmd, ws)]: the call reaches the OS, which may refuse. *)
Definition pty_StartWithSize (os : OS) (c : Cmd) (ws : Winsize) : IO (option OSError) :=
  fun w => (start_error os w (cmd_path c) (cmd_args c) ws,
            w ++ [EvStartWithSize (cmd_path c) (cmd_args c) ws]).

(** [pty.Setsize(t.ptyFile, ws)] *)
Definition pty_Setsize (os : OS) (ws : Winsize) : IO (option OSError) :=
  fun w => (setsize_error os w ws, w ++ [EvSetsize ws]).

Definition New (os : OS) (command : string) (args : list string) (opts : Options)
  : IO (Result Terminal) :=
  let opts := if Rows opts =? 0 then mkOptions 24 (Cols opts) (Env opts) else opts in
  let opts := if Cols opts =? 0 then mkOptions (Rows opts) 80 (Env opts) else opts in
  if (Rows opts <? 0) || (Rows opts >? maxTerminalDimension) then ret (Err ErrRows)
  else if (Cols opts <? 0) || (Cols opts >? maxTerminalDimension) then ret (Err ErrCols)
  else
    let cmd := mkCmd command args
                 ((os_Environ os ++ Env opts) ++ ["TERM=xterm-256color"%string]) in
    err <- pty_StartWithSize os cmd
             (mkWinsize (uint16 (Rows opts)) (uint16 (Cols opts))) ;;
    match err with
    | Some e => ret (Err (ErrStartPTY e))
    | None =>
        let vt := vt10x_New [WithSize (Cols opts) (Rows opts); WithWriter PtyWriter] in
        ret (Ok (mkTerminal cmd vt (Rows opts) (Cols opts)))
    end.

(** [Resize] returns its error together with the session as it leaves it. *)
Definition Resize (os : OS) (t : Terminal) (cols rows : Z) : IO (option Error * Terminal) :=
  if (rows <? 0) || (rows >? maxTerminalDimension) then ret (Some ErrRows, t)
  else if (cols <? 0) || (cols >? maxTerminalDimension) then ret (Some ErrCols, t)
  else
    err <- pty_Setsize os (mkWinsize (uint16 rows) (uint16 cols)) ;;
    match err with
    | Some e => ret (Some (ErrOS e), t)
    | None =>
        ret (None, mkTerminal (cmd t) (vt10x_New [WithSize cols rows]) rows cols)
    end.

Definition Screenshot (t : Terminal) : string := vt_String (vt t).

Definition ScreenshotWithCursor (t : Terminal) : string :=
  let screen := vt_String (vt t) in
  screen.

Definition Size (t : Terminal) : Z * Z := (cols t, rows t).

(** ** The polling waits *)

(** [strings.Contains(s, substr)] *)
Fixpoint Contains (s substr : string) : bool :=
  if prefix substr s then true
  else match s with
       | EmptyString => false
       | String _ s' => Contains s' substr
       end.

Definition containsText (screen text : string) : bool :=
  negb (String.eqb text "") && negb (String.eqb screen "") && Contains screen text.

(** One iteration of a polling loop as the outside world presents it: what the
    clock reads when the loop tests its deadline, the session as it is when
    the screenshot is taken, and what the clock reads after the screenshot.
    Instants and durations are in nanoseconds. *)
Record Poll := mkPoll { at_check : Z; session : Terminal; at_obs : Z }.

(** A call either returns or is still polling when the observations end. *)
Inductive Run (A : Type) :=
| Returned (a : A)
| Polling.

Arguments Returned {A} a.
Arguments Polling {A}.

(** The loop of [WaitForStable]; [stableSince] is [None] for the zero time. *)
Fixpoint stable_loop (polls : list Poll) (deadline stableDuration : Z)
    (lastScreen : string) (stableSince : option Z) : Run (option Error) :=
  match polls with
  | [] => Polling
  | p :: polls' =>
      if at_check p <? deadline then
        let screen := Screenshot (session p) in
        if negb (String.eqb screen lastScreen) then
          stable_loop polls' deadline stableDuration screen (Some (at_obs p))
        else
          match stableSince with
          | Some since =>
              if at_obs p - since >=? stableDuration then Returned None
              else stable_loop polls' deadline stableDuration lastScreen stableSince
          | None => stable_loop polls' deadline stableDuration lastScreen stableSince
          end
      else Returned (Some ErrStableTimeout)
  end.

(** [start] is what the clock reads on entry. *)
Definition WaitForStable (start : Z) (polls : list Poll) (timeout stableDuration : Z)
  : Run (option Error) :=
  let deadline := start + timeout in
  stable_loop polls deadline stableDuration "" None.

Fixpoint text_loop (polls : list Poll) (deadline : Z) (text : string) : Run (option Error) :=
  match polls with
  | [] => Polling
  | p :: polls' =>
      if at_check p <? deadline then
        let screen := Screenshot (session p) in
        if containsText screen text then Returned None
        else text_loop polls' deadline text
      else Returned (Some (ErrTextTimeout text))
  end.

Definition WaitForText (start : Z) (polls : list Poll) (text : string) (timeout : Z)
  : Run (option Error) :=
  let deadline := start + timeout in
  text_loop polls deadline text.

(** ** Concrete worlds and sessions used in the examples *)

(** An operating system that refuses nothing. *)
Definition os_ok : OS := mkOS [] (fun _ _ _ _ => None) (fun _ _ => None).

(** An operating system whose PTY has been closed: sizing it fails (EBADF). *)
Definition os_closed : OS := mkOS [] (fun _ _ _ _ => None) (fun _ _ => Some (Errno 9)).

(** The session [New] creates with the default options. *)
Definition default_session : Terminal :=
  mkTerminal (mkCmd "sh" [] ["TERM=xterm-256color"%string])
             (vt10x_New [WithSize 80 24; WithWriter PtyWriter]) 24 80.

(** A model showing the given lines, with the cursor where it is put. *)
Definition showing (grid : list string) (row col : Z) (visible : bool) : Terminal :=
  mkTerminal (mkCmd "sh" [] []) (mkVT 80 24 PtyWriter grid row col visible) 24 80.

(** The session with its cursor moved. *)
Definition set_cursor (t : Terminal) (row col : Z) (visible : bool) : Terminal :=
  mkTerminal (cmd t)
             (mkVT (vt_cols (vt t)) (vt_rows (vt t)) (vt_writer (vt t))
                   (vt_grid (vt t)) row col visible)
             (rows t) (cols t).

Definition valid_dimension (z : Z) : Prop := 0 <= z <= maxTerminalDimension.

(** The sessions a caller can hold: created by [New], then resized any number
    of times, in whatever world each call finds. *)
Inductive reachable (os : OS) : Terminal -> Prop :=
| reach_New command args opts w t w' :
    New os command args opts w = (Ok t, w') ->
    reachable os t
| reach_Resize t c r w e t' w' :
    reachable os t ->
    Resize os t c r w = ((e, t'), w') ->
    reachable os t'.

(** A byte other than the escape character. *)
Definition plain (b : byte) : Prop := b <> ESC.

(** The window-size-in-pixels query and the answer for a window of the given
    height and width. *)
Definition pixel_query : bytes := [ESC; "["%byte; "1"%byte; "4"%byte; "t"%byte].

Definition pixel_response (height width : Z) : bytes :=
  ESC :: bytes_of "[4;" ++ itoa height ++ bytes_of ";" ++ itoa width ++ bytes_of "t".

(** The prefix of an OSC colour query: ESC ] 1 0 ; for the foreground and
    ESC ] 1 1 ; for the background. *)
Definition osc_prefix (kind : byte) : bytes :=
  [ESC; "]"%byte; "1"%byte; kind; ";"%byte].

(** A terminator of an OSC sequence occurs in [rest]: the byte BEL, or ESC
    followed by a backslash. *)
Definition has_terminator (rest : bytes) : Prop :=
  In BEL rest \/ exists a b, rest = a ++ ESC :: "\"%byte :: b.

(** How many bytes of [rest] lie up to and including the first terminator. *)
Fixpoint terminator_end (rest : bytes) : option nat :=
  match rest with
  | [] => None
  | b :: rest' =>
      if Byte.eqb b BEL then Some 1%nat
      else if Byte.eqb b ESC
              && match rest' with
                 | c :: _ => Byte.eqb c "\"%byte
                 | [] => false
                 end
      then Some 2%nat
      else option_map S (terminator_end rest')
  end.

(** The result of a filter call with its output mapped. *)
Definition map_out (f : bytes -> bytes) (r : option bytes * World) : option bytes * World :=
  (option_map f (fst r), snd r).

(** The text a poll finds on the screen. *)
Definition text (p : Poll) : string := Screenshot (session p).

(** The poll tested its deadline before the deadline. *)
Definition in_time (deadline : Z) (p : Poll) : Prop := at_check p < deadline.

(** [target] occurs in [screen]. *)
Definition substring_of (target screen : string) : Prop :=
  exists a b, screen = (a ++ target ++ b)%string.

(** The text seen last: that of the last poll of [seen], or [init] when there
    has been no poll. *)
Fixpoint last_text (init : string) (seen : list Poll) : string :=
  match seen with
  | [] => init
  | p :: seen' => last_text (text p) seen'
  end.

(** The polls [seen] end in a stretch that shows a settled screen: a poll [c]
    found a text other than the one seen before it (other than the empty text
    when [c] is the first poll), every poll since found that same text, and
    between the clock readings of [c] and of the last poll at least
    [stableDuration] has passed. *)
Definition settled (stableDuration : Z) (seen : list Poll) : Prop :=
  exists before c same p,
    seen = before ++ c :: same ++ [p]
    /\ text c <> last_text "" before
    /\ Forall (fun q => text q = text c) (same ++ [p])
    /\ stableDuration <= at_obs p - at_obs c.

(** The same seen from inside the loop, which remembers the text seen last
    and since when: either the stretch begins at a change among [seen], or it
    continues the one the loop was in. *)
Definition settled_from (last : string) (since : option Z) (stableDuration : Z)
    (seen : list Poll) : Prop :=
  (exists before c same p,
      seen = before ++ c :: same ++ [p]
      /\ text c <> last_text last before
      /\ Forall (fun q => text q = text c) (same ++ [p])
      /\ stableDuration <= at_obs p - at_obs c)
  \/ (exists s same p,
      since = Some s
      /\ seen = same ++ [p]
      /\ Forall (fun q => text q = last) (same ++ [p])
      /\ stableDuration <= at_obs p - s).

(** The polls end in a stretch of equal texts that has lasted
    [stableDuration], whether or not a change was seen at its beginning. *)
Definition unchanged_for (stableDuration : Z) (seen : list Poll) : Prop :=
  exists before c same p,
    seen = before ++ c :: same ++ [p]
    /\ Forall (fun q => text q = text c) (same ++ [p])
    /\ stableDuration <= at_obs p - at_obs c.

(** A session of no rows, as [Resize] to 0 x 0 leaves it: its screen is the
    empty text. *)
Definition empty_session : Terminal :=
  mkTerminal (cmd default_session) (vt10x_New [WithSize 0 0]) 0 0.

Definition ms (n : Z) : Z := n * 1000000.

(** Polls every 50 ms from the instant 0 on, all finding [t]. *)
Fixpoint polls_of (t : Terminal) (from : Z) (n : nat) : list Poll :=
  match n with
  | O => []
  | S n' => mkPoll from t from :: polls_of t (from + ms 50) n'
  end.

(** ** Notions used to state further properties *)

(** [sub] is [full] with some of its bytes left out. *)
Inductive subseq : bytes -> bytes -> Prop :=
| subseq_nil : subseq [] []
| subseq_keep b sub full : subseq sub full -> subseq (b :: sub) (b :: full)
| subseq_drop b sub full : subseq sub full -> subseq sub (b :: full).

(** The Device Attributes queries with their answers. *)
Definition device_attributes_table : list (bytes * bytes) :=
  [ ([ESC; "["%byte; "c"%byte], DA1_response);
    ([ESC; "["%byte; "0"%byte; "c"%byte], DA1_response);
    ([ESC; "["%byte; ">"%byte; "c"%byte], DA2_response);
    ([ESC; "["%byte; ">"%byte; "0"%byte; "c"%byte], DA2_response) ].

(** The size-in-characters queries with their answers in session [t]. *)
Definition size_in_chars_table (t : Terminal) : list (bytes * bytes) :=
  [ ([ESC; "["%byte; "1"%byte; "8"%byte; "t"%byte],
     ESC :: bytes_of "[8;" ++ itoa (rows t) ++ bytes_of ";" ++ itoa (cols t) ++ bytes_of "t");
    ([ESC; "["%byte; "1"%byte; "9"%byte; "t"%byte],
     ESC :: bytes_of "[9;" ++ itoa (rows t) ++ bytes_of ";" ++ itoa (cols t) ++ bytes_of "t") ].


(** ** Keys and the command line *)

(** [Key], a string of the bytes a key sends. *)
Definition Key := string.

Definition chr (n : nat) : string := String (ascii_of_nat n) EmptyString.
Definition esc (tail : string) : string := String (ascii_of_nat 27) tail.

(** The key constants of keys.go. *)
Definition KeyUp : Key := esc "[A".
Definition KeyDown : Key := esc "[B".
Definition KeyRight : Key := esc "[C".
Definition KeyLeft : Key := esc "[D".
Definition KeyHome : Key := esc "[H".
Definition KeyEnd : Key := esc "[F".
Definition KeyPgUp : Key := esc "[5~".
Definition KeyPgDn : Key := esc "[6~".
Definition KeyF1 : Key := esc "OP".
Definition KeyF2 : Key := esc "OQ".
Definition KeyF3 : Key := esc "OR".
Definition KeyF4 : Key := esc "OS".
Definition KeyF5 : Key := esc "[15~".
Definition KeyF6 : Key := esc "[17~".
Definition KeyF7 : Key := esc "[18~".
Definition KeyF8 : Key := esc "[19~".
Definition KeyF9 : Key := esc "[20~".
Definition KeyF10 : Key := esc "[21~".
Definition KeyF11 : Key := esc "[23~".
Definition KeyF12 : Key := esc "[24~".
Definition KeyEnter : Key := chr 13.
Definition KeyTab : Key := chr 9.
Definition KeyBackspace : Key := chr 127.
Definition KeyEscape : Key := chr 27.
Definition KeyDelete : Key := esc "[3~".
Definition KeyInsert : Key := esc "[2~".
Definition KeyCtrlA : Key := chr 1.
Definition KeyCtrlB : Key := chr 2.
Definition KeyCtrlC : Key := chr 3.
Definition KeyCtrlD : Key := chr 4.
Definition KeyCtrlE : Key := chr 5.
Definition KeyCtrlF : Key := chr 6.
Definition KeyCtrlG : Key := chr 7.
Definition KeyCtrlH : Key := chr 8.
Definition KeyCtrlI : Key := chr 9.
Definition KeyCtrlJ : Key := chr 10.
Definition KeyCtrlK : Key := chr 11.
Definition KeyCtrlL : Key := chr 12.
Definition KeyCtrlM : Key := chr 13.
Definition KeyCtrlN : Key := chr 14.
Definition KeyCtrlO : Key := chr 15.
Definition KeyCtrlP : Key := chr 16.
Definition KeyCtrlQ : Key := chr 17.
Definition KeyCtrlR : Key := chr 18.
Definition KeyCtrlS : Key := chr 19.
Definition KeyCtrlT : Key := chr 20.
Definition KeyCtrlU : Key := chr 21.
Definition KeyCtrlV : Key := chr 22.
Definition KeyCtrlW : Key := chr 23.
Definition KeyCtrlX : Key := chr 24.
Definition KeyCtrlY : Key := chr 25.
Definition KeyCtrlZ : Key := chr 26.
Definition KeySpace : Key := " "%string.

(** [Terminal.SendKeys]: one write to the PTY, whose error is returned; the
    oracle [write_error] decides whether the write fails. *)
Definition SendKeys (write_error : World -> bytes -> option OSError)
    (t : Terminal) (keys : string) : IO (option Error) :=
  fun w => (option_map ErrOS (write_error w (bytes_of keys)),
            w ++ [EvWriteString (bytes_of keys)]).

Definition SendKey (write_error : World -> bytes -> option OSError)
    (t : Terminal) (key : Key) : IO (option Error) :=
  SendKeys write_error t key.

(** [strings.Split(s, sep)] for a separator of one byte. *)
Fixpoint split_on (sep : ascii) (s : string) : list string :=
  match s with
  | EmptyString => [EmptyString]
  | String c s' =>
      if Ascii.eqb c sep then EmptyString :: split_on sep s'
      else match split_on sep s' with
           | l :: ls => String c l :: ls
           | [] => [String c EmptyString]
           end
  end.

(** [strings.Join(elems, sep)] *)
Fixpoint Join (elems : list string) (sep : string) : string :=
  match elems with
  | [] => EmptyString
  | e :: es =>
      match es with
      | [] => e
      | _ :: _ => (e ++ sep ++ Join es sep)%string
      end
  end.

Fixpoint map_string (f : ascii -> ascii) (s : string) : string :=
  match s with
  | EmptyString => EmptyString
  | String c s' => String (f c) (map_string f s')
  end.

Fixpoint isASCII (s : string) : bool :=
  match s with
  | EmptyString => true
  | String c s' => (nat_of_ascii c <? 128)%nat && isASCII s'
  end.

(** An upper-case ASCII letter becomes the lower-case one. *)
Definition lower_ascii (c : ascii) : ascii :=
  if ((65 <=? nat_of_ascii c) && (nat_of_ascii c <=? 90))%nat
  then ascii_of_nat (nat_of_ascii c + 32)
  else c.

(** [strings.ToLower(s)]: bytewise on a string of ASCII bytes; a string with
    other bytes goes through the Unicode mapping, [unicode_ToLower], which is
    left open. *)
Definition ToLower (unicode_ToLower : string -> string) (s : string) : string :=
  if isASCII s then map_string lower_ascii s else unicode_ToLower s.

(** The cases of the switch of [parseKey], in its order. *)
Definition key_names : list (string * Key) :=
  [ ("up"%string, KeyUp);
    ("down"%string, KeyDown);
    ("left"%string, KeyLeft);
    ("right"%string, KeyRight);
    ("enter"%string, KeyEnter);
    ("return"%string, KeyEnter);
    ("tab"%string, KeyTab);
    ("esc"%string, KeyEscape);
    ("escape"%string, KeyEscape);
    ("backspace"%string, KeyBackspace);
    ("delete"%string, KeyDelete);
    ("home"%string, KeyHome);
    ("end"%string, KeyEnd);
    ("pgup"%string, KeyPgUp);
    ("pageup"%string, KeyPgUp);
    ("pgdn"%string, KeyPgDn);
    ("pagedown"%string, KeyPgDn);
    ("space"%string, KeySpace);
    ("f1"%string, KeyF1);
    ("f2"%string, KeyF2);
    ("f3"%string, KeyF3);
    ("f4"%string, KeyF4);
    ("f5"%string, KeyF5);
    ("f6"%string, KeyF6);
    ("f7"%string, KeyF7);
    ("f8"%string, KeyF8);
    ("f9"%string, KeyF9);
    ("f10"%string, KeyF10);
    ("f11"%string, KeyF11);
    ("f12"%string, KeyF12);
    ("ctrl-a"%string, KeyCtrlA);
    ("ctrl-b"%string, KeyCtrlB);
    ("ctrl-c"%string, KeyCtrlC);
    ("ctrl-d"%string, KeyCtrlD);
    ("ctrl-e"%string, KeyCtrlE);
    ("ctrl-f"%string, KeyCtrlF);
    ("ctrl-g"%string, KeyCtrlG);
    ("ctrl-h"%string, KeyCtrlH);
    ("ctrl-i"%string, KeyCtrlI);
    ("ctrl-j"%string, KeyCtrlJ);
    ("ctrl-k"%string, KeyCtrlK);
    ("ctrl-l"%string, KeyCtrlL);
    ("ctrl-n"%string, KeyCtrlN);
    ("ctrl-o"%string, KeyCtrlO);
    ("ctrl-p"%string, KeyCtrlP);
    ("ctrl-q"%string, KeyCtrlQ);
    ("ctrl-r"%string, KeyCtrlR);
    ("ctrl-s"%string, KeyCtrlS);
    ("ctrl-t"%string, KeyCtrlT);
    ("ctrl-u"%string, KeyCtrlU);
    ("ctrl-v"%string, KeyCtrlV);
    ("ctrl-w"%string, KeyCtrlW);
    ("ctrl-x"%string, KeyCtrlX);
    ("ctrl-y"%string, KeyCtrlY);
    ("ctrl-z"%string, KeyCtrlZ) ].

Fixpoint lookup_key (name : string) (table : list (string * Key)) : option Key :=
  match table with
  | [] => None
  | (n, k) :: table' => if String.eqb name n then Some k else lookup_key name table'
  end.

Definition parseKey (unicode_ToLower : string -> string) (s : string) : Key :=
  match lookup_key (ToLower unicode_ToLower s) key_names with
  | Some k => k
  | None => s
  end.

(** The loop of [sendKeys] over the parts; the sleep between keys leaves no
    trace in the world. *)
Fixpoint sendKeys_parts (write_error : World -> bytes -> option OSError)
    (unicode_ToLower : string -> string) (t : Terminal) (parts : list string)
  : IO (option Error) :=
  match parts with
  | [] => ret None
  | part :: parts' =>
      if String.eqb part "" then sendKeys_parts write_error unicode_ToLower t parts'
      else
        let key := parseKey unicode_ToLower part in
        err <- SendKeys write_error t key ;;
        match err with
        | Some e => ret (Some e)
        | None => sendKeys_parts write_error unicode_ToLower t parts'
        end
  end.

Definition sendKeys (write_error : World -> bytes -> option OSError)
    (unicode_ToLower : string -> string) (t : Terminal) (keys : string)
    (inputDelay : Z) : IO (option Error) :=
  let parts := split_on " " keys in
  sendKeys_parts write_error unicode_ToLower t parts.

(** The loop of [trimTrailingBlankLines], [i] running from [n - 1] down to 0;
    [TrimSpace] is [strings.TrimSpace], left open. *)
Fixpoint lastNonBlank_from (TrimSpace : string -> string) (lines : list string) (n : nat) : Z :=
  match n with
  | O => -1
  | S i =>
      if negb (String.eqb (TrimSpace (nth i lines EmptyString)) "") then Z.of_nat i
      else lastNonBlank_from TrimSpace lines i
  end.

Definition trimTrailingBlankLines (TrimSpace : string -> string) (s : string) : string :=
  let lines := split_on (ascii_of_nat 10) s in
  let lastNonBlank := lastNonBlank_from TrimSpace lines (List.length lines) in
  if lastNonBlank =? -1 then EmptyString
  else Join (firstn (Z.to_nat (lastNonBlank + 1)) lines) newline.

(** The byte [sep] does not occur in [s]. *)
Fixpoint free_of (sep : ascii) (s : string) : Prop :=
  match s with
  | EmptyString => True
  | String c s' => c <> sep /\ free_of sep s'
  end.

(** A [TrimSpace] that takes off the spaces at both ends, for the examples. *)
Fixpoint trim_left (s : string) : string :=
  match s with
  | String " " s' => trim_left s'
  | _ => s
  end.

Definition rev_string (s : string) : string :=
  string_of_list_ascii (rev (list_ascii_of_string s)).

Definition trim_spaces (s : string) : string :=
  rev_string (trim_left (rev_string (trim_left s))).

(** A write oracle that never fails, and one that fails once the world
    holds a write. *)
Definition write_ok : World -> bytes -> option OSError := fun _ _ => None.

Definition write_once : World -> bytes -> option OSError :=
  fun w _ => match writes w with [] => None | _ => Some (Errno 5) end.

(** The byte sequences with which every recognised query begins: the seven
    CSI queries and the two OSC prefixes. *)
Definition recognised_prefixes : list bytes :=
  [ [ESC; "["%byte; "c"%byte];
    [ESC; "["%byte; "0"%byte; "c"%byte];
    [ESC; "["%byte; ">"%byte; "c"%byte];
    [ESC; "["%byte; ">"%byte; "0"%byte; "c"%byte];
    [ESC; "["%byte; "1"%byte; "4"%byte; "t"%byte];
    [ESC; "["%byte; "1"%byte; "8"%byte; "t"%byte];
    [ESC; "["%byte; "1"%byte; "9"%byte; "t"%byte];
    [ESC; "]"%byte; "1"%byte; "1"%byte; ";"%byte];
    [ESC; "]"%byte; "1"%byte; "0"%byte; ";"%byte] ].

(** * Properties *)

(** Case analysis on the integer comparisons of a goal. *)
Ltac zcases :=
  repeat match goal with
  | |- context [?a >? ?b] => rewrite (Z.gtb_ltb a b)
  | |- context [?a >=? ?b] => rewrite (Z.geb_leb a b)
  | |- context [?a =? ?b] => destruct (Z.eqb_spec a b)
  | |- context [?a <? ?b] => destruct (Z.ltb_spec a b)
  | |- context [?a <=? ?b] => destruct (Z.leb_spec a b)
  end.

(** ** The query interceptor *)

Lemma writes_app (w1 w2 : World) : writes (w1 ++ w2) = writes w1 ++ writes w2.
Proof.
  induction w1 as [|e w1 IH]; simpl; [reflexivity|].
  destruct e; simpl; rewrite IH; reflexivity.
Qed.

Lemma sizings_app (w1 w2 : World) : sizings (w1 ++ w2) = sizings w1 ++ sizings w2.
Proof.
  induction w1 as [|e w1 IH]; simpl; [reflexivity|].
  destruct e; simpl; rewrite IH; reflexivity.
Qed.

Lemma len_nonneg (data : bytes) : 0 <= len data.
Proof. unfold len; lia. Qed.

Lemma len_cons (b : byte) (data : bytes) : len (b :: data) = 1 + len data.
Proof. unfold len; simpl List.length; lia. Qed.

Lemma len_app (pre s : bytes) : len (pre ++ s) = len pre + len s.
Proof. unfold len; rewrite length_app; lia. Qed.

Lemma at_shift (pre s : bytes) (k : Z) :
  0 <= k -> at_ (pre ++ s) (len pre + k) = at_ s k.
Proof.
  intros Hk; unfold at_, len.
  replace (Z.to_nat (Z.of_nat (List.length pre) + k))
    with (List.length pre + Z.to_nat k)%nat by lia.
  apply app_nth2_plus.
Qed.

Lemma skipn_shift (pre s : bytes) (k : Z) :
  0 <= k -> skipn (Z.to_nat (len pre + k)) (pre ++ s) = skipn (Z.to_nat k) s.
Proof.
  intros Hk; unfold len.
  replace (Z.to_nat (Z.of_nat (List.length pre) + k))
    with (List.length pre + Z.to_nat k)%nat by lia.
  rewrite skipn_app, skipn_all2 by lia.
  replace (List.length pre + Z.to_nat k - List.length pre)%nat with (Z.to_nat k) by lia.
  reflexivity.
Qed.

Lemma geb_shift (n a b : Z) : (n + a >=? n + b) = (a >=? b).
Proof. rewrite !Z.geb_leb. destruct (Z.leb_spec b a), (Z.leb_spec (n + b) (n + a)); lia. Qed.

Lemma ltb_shift (n a b : Z) : (n + a <? n + b) = (a <? b).
Proof. destruct (Z.ltb_spec a b), (Z.ltb_spec (n + a) (n + b)); lia. Qed.

(** [findOSCEnd_from] returns the position after the first terminator. *)
Lemma findOSCEnd_from_spec (rest : bytes) (i : Z) :
  findOSCEnd_from rest i
  = match terminator_end rest with
    | Some k => i + Z.of_nat k
    | None => -1
    end.
Proof.
  revert i; induction rest as [|b rest IH]; intros i; simpl; [reflexivity|].
  destruct (Byte.eqb b BEL); [reflexivity|].
  destruct (Byte.eqb b ESC && _); [reflexivity|].
  rewrite IH.
  destruct (terminator_end rest); simpl; lia.
Qed.

Lemma terminator_end_none (rest : bytes) :
  ~ has_terminator rest -> terminator_end rest = None.
Proof.
  unfold has_terminator.
  induction rest as [|b rest IH]; intros H; simpl; [reflexivity|].
  destruct (Byte.eqb b BEL) eqn:Hbel.
  { exfalso; apply H; left; left. symmetry; now apply Byte.byte_dec_bl. }
  destruct (Byte.eqb b ESC) eqn:Hesc; simpl.
  - destruct rest as [|c rest'].
    + reflexivity.
    + destruct (Byte.eqb c "\"%byte) eqn:Hc.
      * exfalso; apply H; right. exists [], rest'.
        apply Byte.byte_dec_bl in Hesc, Hc; subst; reflexivity.
      * rewrite IH; [reflexivity|].
        intros [Hin | (a & b' & Heq)]; apply H.
        -- left; right; exact Hin.
        -- right; exists (b :: a), b'; rewrite Heq; reflexivity.
  - rewrite IH; [reflexivity|].
    intros [Hin | (a & b' & Heq)]; apply H.
    + left; right; exact Hin.
    + right; exists (b :: a), b'; rewrite Heq; reflexivity.
Qed.

Lemma terminator_end_some (rest : bytes) (k : nat) :
  terminator_end rest = Some k -> has_terminator rest.
Proof.
  unfold has_terminator.
  revert k; induction rest as [|b rest IH]; intros k; simpl; [discriminate|].
  destruct (Byte.eqb b BEL) eqn:Hbel.
  { intros _; left; left. symmetry; now apply Byte.byte_dec_bl. }
  destruct (Byte.eqb b ESC) eqn:Hesc; simpl.
  - destruct rest as [|c rest']; [discriminate|].
    destruct (Byte.eqb c "\"%byte) eqn:Hc.
    + intros _; right; exists [], rest'.
      apply Byte.byte_dec_bl in Hesc, Hc; subst; reflexivity.
    + destruct (terminator_end (c :: rest')) as [k'|]; [|discriminate].
      intros _; destruct (IH k' eq_refl) as [Hin | (a & b' & Heq)].
      * left; right; exact Hin.
      * right; exists (b :: a), b'; rewrite Heq; reflexivity.
  - destruct (terminator_end rest) as [k'|]; [|discriminate].
    intros _; destruct (IH k' eq_refl) as [Hin | (a & b' & Heq)].
    + left; right; exact Hin.
    + right; exists (b :: a), b'; rewrite Heq; reflexivity.
Qed.

(** The interceptor looks only forward: what it does at a position of a
    buffer is what it does at that position of the buffer without the bytes
    before it. *)
Ltac shift_indices pre i :=
  repeat match goal with
  | |- context [len pre + i + ?k] =>
      replace (len pre + i + k) with (len pre + (i + k)) by lia
  end;
  rewrite ?len_app, ?geb_shift, ?ltb_shift, ?at_shift by lia.

Lemma tryHandleXTWINOPS_shift (t : Terminal) (pre s : bytes) (i : Z) :
  0 <= i ->
  tryHandleXTWINOPS t (pre ++ s) (len pre + i) = tryHandleXTWINOPS t s i.
Proof.
  intros Hi; unfold tryHandleXTWINOPS.
  shift_indices pre i.
  reflexivity.
Qed.

Lemma tryHandleCSIQuery_shift (t : Terminal) (pre s : bytes) (i : Z) :
  0 <= i ->
  tryHandleCSIQuery t (pre ++ s) (len pre + i) = tryHandleCSIQuery t s i.
Proof.
  intros Hi; unfold tryHandleCSIQuery.
  rewrite tryHandleXTWINOPS_shift by lia.
  shift_indices pre i.
  reflexivity.
Qed.

Lemma findOSCEnd_shift (t : Terminal) (pre s : bytes) (k : Z) :
  0 <= k ->
  findOSCEnd t (pre ++ s) (len pre + k)
  = if findOSCEnd t s k =? -1 then -1 else len pre + findOSCEnd t s k.
Proof.
  intros Hk; unfold findOSCEnd.
  rewrite skipn_shift by lia.
  rewrite !findOSCEnd_from_spec.
  destruct (terminator_end _) as [n|].
  - destruct (Z.eqb_spec (k + Z.of_nat n) (-1)); lia.
  - reflexivity.
Qed.

Lemma findOSCEnd_range (t : Terminal) (s : bytes) (k : Z) :
  0 <= k -> findOSCEnd t s k = -1 \/ k < findOSCEnd t s k.
Proof.
  intros Hk; unfold findOSCEnd.
  rewrite findOSCEnd_from_spec.
  destruct (terminator_end _) as [n|] eqn:E; [right|left; reflexivity].
  assert (n <> 0%nat); [|lia].
  clear -E; intros ->.
  destruct (skipn _ s) as [|b r]; simpl in E; [discriminate|].
  destruct (Byte.eqb b BEL); [discriminate|].
  destruct (Byte.eqb b ESC && _); [discriminate|].
  destruct (terminator_end r); discriminate.
Qed.

Lemma tryHandleOSCQuery_shift (t : Terminal) (pre s : bytes) (i : Z) :
  0 <= i ->
  tryHandleOSCQuery t (pre ++ s) (len pre + i) = tryHandleOSCQuery t s i.
Proof.
  intros Hi; unfold tryHandleOSCQuery.
  shift_indices pre i.
  rewrite findOSCEnd_shift by lia.
  pose proof (len_nonneg pre) as Hpre.
  destruct (findOSCEnd_range t s (k := i + 5)) as [-> | Hlt]; [lia| |].
  - simpl. replace (-1 >? len pre + i) with false
      by (symmetry; rewrite Z.gtb_ltb; apply Z.ltb_ge; lia).
    replace (-1 >? i) with false
      by (symmetry; rewrite Z.gtb_ltb; apply Z.ltb_ge; lia).
    reflexivity.
  - set (e := findOSCEnd t s (i + 5)) in *.
    replace (e =? -1) with false by (symmetry; apply Z.eqb_neq; lia).
    replace (len pre + e >? len pre + i) with true
      by (symmetry; rewrite Z.gtb_ltb; apply Z.ltb_lt; lia).
    replace (e >? i) with true
      by (symmetry; rewrite Z.gtb_ltb; apply Z.ltb_lt; lia).
    replace (len pre + e - (len pre + i)) with (e - i) by lia.
    reflexivity.
Qed.

Lemma tryHandleQuery_shift (t : Terminal) (pre s : bytes) (i : Z) :
  0 <= i ->
  tryHandleQuery t (pre ++ s) (len pre + i) = tryHandleQuery t s i.
Proof.
  intros Hi; unfold tryHandleQuery.
  rewrite tryHandleCSIQuery_shift, tryHandleOSCQuery_shift by lia.
  reflexivity.
Qed.

Lemma scan_eq (fuel : nat) (t : Terminal) (data : bytes) (i : Z) (result : bytes) :
  scan fuel t data i result
  = if i <? len data then
      match fuel with
      | O => ret None
      | S fuel' =>
          if Byte.eqb (at_ data i) ESC && (i + 1 <? len data) then
            skip <- tryHandleQuery t data i ;;
            if skip >? 0 then scan fuel' t data (i + skip) result
            else scan fuel' t data (i + 1) (result ++ [at_ data i])
          else scan fuel' t data (i + 1) (result ++ [at_ data i])
      end
    else ret (Some result).
Proof. destruct fuel; reflexivity. Qed.

Lemma map_out_map_out (f g : bytes -> bytes) r :
  map_out f (map_out g r) = map_out (fun x => f (g x)) r.
Proof. destruct r as [[o|] w]; reflexivity. Qed.

Lemma map_out_ext (f g : bytes -> bytes) r :
  (forall x, f x = g x) -> map_out f r = map_out g r.
Proof. intros H; destruct r as [[o|] w]; unfold map_out; simpl; [rewrite H|]; reflexivity. Qed.

(** The output collected so far is only ever appended to. *)
Lemma scan_acc (t : Terminal) (data : bytes) (fuel : nat) :
  forall i result w,
    scan fuel t data i result w = map_out (app result) (scan fuel t data i [] w).
Proof.
  induction fuel as [|fuel IH]; intros i result w; rewrite !(scan_eq _ t data i).
  - destruct (i <? len data); unfold ret, map_out; simpl; [|rewrite app_nil_r]; reflexivity.
  - destruct (i <? len data); [|unfold ret, map_out; simpl; rewrite app_nil_r; reflexivity].
    assert (Hpass : scan fuel t data (i + 1) (result ++ [at_ data i]) w
                    = map_out (app result) (scan fuel t data (i + 1) ([] ++ [at_ data i]) w)).
    { rewrite IH, (IH _ ([] ++ _)), map_out_map_out.
      apply map_out_ext; intros x; simpl; rewrite <- app_assoc; reflexivity. }
    destruct (Byte.eqb (at_ data i) ESC && (i + 1 <? len data)); [|exact Hpass].
    unfold bind. destruct (tryHandleQuery t data i w) as [skip w1].
    destruct (skip >? 0); [apply IH|].
    clear Hpass.
    rewrite IH, (IH _ ([] ++ _)), map_out_map_out.
    apply map_out_ext; intros x; simpl; rewrite <- app_assoc; reflexivity.
Qed.

Lemma scan_shift (t : Terminal) (pre s : bytes) (fuel : nat) :
  forall i result w,
    0 <= i ->
    scan fuel t (pre ++ s) (len pre + i) result w = scan fuel t s i result w.
Proof.
  induction fuel as [|fuel IH]; intros i result w Hi;
    rewrite (scan_eq _ t (pre ++ s)), (scan_eq _ t s);
    rewrite len_app, ltb_shift.
  - reflexivity.
  - destruct (i <? len s); [|reflexivity].
    replace (len pre + i + 1) with (len pre + (i + 1)) by lia.
    rewrite ltb_shift, at_shift, tryHandleQuery_shift by lia.
    destruct (Byte.eqb (at_ s i) ESC && (i + 1 <? len s)); [|apply IH; lia].
    unfold bind. destruct (tryHandleQuery t s i w) as [skip w1].
    destruct (Z.gtb_spec skip 0).
    + replace (len pre + i + skip) with (len pre + (i + skip)) by lia.
      apply IH; lia.
    + apply IH; lia.
Qed.

(** Any fuel that covers the bytes left to scan gives the same result. *)
Lemma scan_fuel (t : Terminal) (data : bytes) (fuel1 : nat) :
  forall fuel2 i result w,
    len data - i <= Z.of_nat fuel1 ->
    len data - i <= Z.of_nat fuel2 ->
    scan fuel1 t data i result w = scan fuel2 t data i result w.
Proof.
  induction fuel1 as [|fuel1 IH]; intros fuel2 i result w H1 H2;
    rewrite (scan_eq _ t data i), (scan_eq fuel2 t data i);
    destruct (Z.ltb_spec i (len data)); try reflexivity; try lia.
  destruct fuel2 as [|fuel2]; [lia|].
  destruct (Byte.eqb (at_ data i) ESC && (i + 1 <? len data)); [|apply IH; lia].
  unfold bind. destruct (tryHandleQuery t data i w) as [skip w1].
  destruct (Z.gtb_spec skip 0); apply IH; lia.
Qed.

(** The filter always returns. *)
Lemma scan_returns (t : Terminal) (data : bytes) (fuel : nat) :
  forall i result w,
    len data - i <= Z.of_nat fuel ->
    exists out w', scan fuel t data i result w = (Some out, w').
Proof.
  induction fuel as [|fuel IH]; intros i result w H;
    rewrite (scan_eq _ t data i);
    destruct (Z.ltb_spec i (len data)); try lia; try (unfold ret; eauto; fail).
  destruct (Byte.eqb (at_ data i) ESC && (i + 1 <? len data)); [|apply IH; lia].
  unfold bind. destruct (tryHandleQuery t data i w) as [skip w1].
  destruct (Z.gtb_spec skip 0); apply IH; lia.
Qed.

Lemma handleTerminalQueries_returns (t : Terminal) (data : bytes) (w : World) :
  exists out w', handleTerminalQueries t data w = (Some out, w').
Proof. apply scan_returns; unfold len; lia. Qed.

(** A byte at which nothing is recognised is passed through, and the rest of
    the buffer is filtered as a buffer of its own. *)
Lemma handle_cons_pass (t : Terminal) (b : byte) (s : bytes) (w : World) :
  plain b \/ s = [] \/ (exists skip, tryHandleQuery t (b :: s) 0 w = (skip, w) /\ skip <= 0) ->
  handleTerminalQueries t (b :: s) w = map_out (cons b) (handleTerminalQueries t s w).
Proof.
  intros H; unfold handleTerminalQueries.
  simpl List.length; rewrite scan_eq.
  rewrite len_cons.
  destruct (Z.ltb_spec 0 (1 + len s)); [|pose proof (len_nonneg s); lia].
  change (at_ (b :: s) 0) with b.
  assert (Hpass : scan (List.length s) t (b :: s) (0 + 1) ([] ++ [b]) w
                  = map_out (cons b) (scan (List.length s) t s 0 [] w)).
  { change (b :: s) with ([b] ++ s).
    change (0 + 1) with (len [b] + 0).
    rewrite scan_shift by lia.
    rewrite scan_acc. reflexivity. }
  destruct (Byte.eqb b ESC) eqn:Hb; cbn [andb]; [|exact Hpass].
  destruct (Z.ltb_spec (0 + 1) (1 + len s)); [|exact Hpass].
  destruct H as [H | [-> | (skip & Hq & Hskip)]].
  - apply Byte.byte_dec_bl in Hb; contradiction.
  - unfold len in *; simpl in *; lia.
  - unfold bind; rewrite Hq.
    destruct (Z.gtb_spec skip 0); [lia|exact Hpass].
Qed.

Lemma handle_nil (t : Terminal) (w : World) : handleTerminalQueries t [] w = (Some [], w).
Proof. reflexivity. Qed.

(** Bytes before the first escape character are passed through, and what
    follows them is filtered as a buffer of its own. *)
Lemma handle_plain_prefix (t : Terminal) (pre s : bytes) (w : World) :
  Forall plain pre ->
  handleTerminalQueries t (pre ++ s) w = map_out (app pre) (handleTerminalQueries t s w).
Proof.
  induction 1 as [|b pre Hb Hpre IH]; simpl.
  - destruct (handleTerminalQueries t s w) as [[o|] w']; reflexivity.
  - rewrite handle_cons_pass by (left; exact Hb).
    rewrite IH, map_out_map_out. reflexivity.
Qed.

(** The identity property: a buffer without escape character is returned as
    it is and nothing is written. *)
Lemma handle_plain (t : Terminal) (data : bytes) (w : World) :
  Forall plain data -> handleTerminalQueries t data w = (Some data, w).
Proof.
  intros H.
  rewrite <- (app_nil_r data) at 1.
  rewrite handle_plain_prefix, handle_nil by exact H.
  unfold map_out; simpl; rewrite app_nil_r; reflexivity.
Qed.

(** A query recognised at the head of the buffer is skipped, and what follows
    it is filtered as a buffer of its own, in the world the answer left. *)
Lemma handle_skip (t : Terminal) (q s : bytes) (w w1 : World) :
  (1 < len (q ++ s)) ->
  at_ (q ++ s) 0 = ESC ->
  q <> [] ->
  tryHandleQuery t (q ++ s) 0 w = (len q, w1) ->
  handleTerminalQueries t (q ++ s) w = handleTerminalQueries t s w1.
Proof.
  intros Hlen Hesc Hq Htry; unfold handleTerminalQueries.
  destruct (List.length (q ++ s)) as [|n] eqn:Hn.
  { unfold len in Hlen; lia. }
  rewrite scan_eq.
  destruct (Z.ltb_spec 0 (len (q ++ s))); [|lia].
  rewrite Hesc. change (Byte.eqb ESC ESC) with true. cbn [andb].
  destruct (Z.ltb_spec (0 + 1) (len (q ++ s))); [|lia].
  unfold bind; rewrite Htry.
  assert (0 < len q) by (destruct q; [contradiction|rewrite len_cons; pose proof (len_nonneg q); lia]).
  destruct (Z.gtb_spec (len q) 0); [|lia].
  replace (0 + len q) with (len q + 0) by lia.
  rewrite scan_shift by lia.
  apply scan_fuel; rewrite length_app in Hn; unfold len in *; lia.
Qed.

(** One iteration of the scanning loop at a byte at which nothing is
    recognised, and one at a byte at which a query is. *)
Lemma scan_pass_step (t : Terminal) (pre s : bytes) (k : Z) (fuel : nat)
    (result : bytes) (w : World) :
  0 <= k < len s ->
  plain (at_ s k) \/ tryHandleQuery t s k w = (0, w) ->
  scan (S fuel) t (pre ++ s) (len pre + k) result w
  = scan fuel t (pre ++ s) (len pre + (k + 1)) (result ++ [at_ s k]) w.
Proof.
  intros Hk H.
  rewrite scan_eq, len_app, ltb_shift, at_shift by lia.
  destruct (Z.ltb_spec k (len s)); [|lia].
  replace (len pre + k + 1) with (len pre + (k + 1)) by lia.
  rewrite ltb_shift.
  destruct (Byte.eqb (at_ s k) ESC) eqn:Hb; cbn [andb]; [|reflexivity].
  destruct (k + 1 <? len s); [|reflexivity].
  destruct H as [H | H].
  - apply Byte.byte_dec_bl in Hb; contradiction.
  - unfold bind; rewrite tryHandleQuery_shift, H by lia. reflexivity.
Qed.


(** C5. A buffer that is exactly one Primary Device Attributes query, in
    either of its forms ESC [ c and ESC [ 0 c, is filtered to the empty
    buffer, and the only thing that happens to the world is one write to the
    PTY, of the bytes ESC [ ? 6 2 ; 4 c. *)
Theorem DA1_query_alone (t : Terminal) (w : World) :
  handleTerminalQueries t [ESC; "["%byte; "c"%byte] w
    = (Some [], w ++ [EvWriteString DA1_response])
  /\ handleTerminalQueries t [ESC; "["%byte; "0"%byte; "c"%byte] w
    = (Some [], w ++ [EvWriteString DA1_response])
  /\ DA1_response
    = [x1b; "["%byte; "?"%byte; "6"%byte; "2"%byte; ";"%byte; "4"%byte; "c"%byte]
  /\ writes (w ++ [EvWriteString DA1_response]) = writes w ++ [DA1_response].
Proof.
  repeat split; try reflexivity.
  rewrite writes_app; reflexivity.
Qed.

Lemma wrap64_cell (z k : Z) :
  valid_dimension z -> 0 <= k <= 16 -> wrap64 (z * k) = z * k.
Proof.
  unfold valid_dimension, maxTerminalDimension, wrap64; intros Hz Hk.
  change (2 ^ 63) with 9223372036854775808.
  change (2 ^ 64) with 18446744073709551616.
  rewrite Z.mod_small by nia.
  lia.
Qed.

Lemma pixel_query_recognised (t : Terminal) (post : bytes) (w : World) :
  tryHandleQuery t (pixel_query ++ post) 0 w
  = (5, w ++ [EvWriteString (pixel_response (wrap64 (rows t * 16)) (wrap64 (cols t * 8)))]).
Proof.
  assert (Hl : len (pixel_query ++ post) = 5 + len post) by (rewrite len_app; reflexivity).
  pose proof (len_nonneg post) as Hpost.
  unfold tryHandleQuery, tryHandleCSIQuery, tryHandleXTWINOPS, bind.
  rewrite Hl.
  change (at_ (pixel_query ++ post) (0 + 1)) with "["%byte.
  change (at_ (pixel_query ++ post) (0 + 2)) with "1"%byte.
  change (at_ (pixel_query ++ post) (0 + 3)) with "4"%byte.
  change (at_ (pixel_query ++ post) (0 + 4)) with "t"%byte.
  zcases; try lia.
  reflexivity.
Qed.



Lemma osc_prefix_not_recognised (t : Terminal) (kind : byte) (rest : bytes) (w : World) :
  kind = "0"%byte \/ kind = "1"%byte ->
  ~ has_terminator rest ->
  tryHandleCSIQuery t (osc_prefix kind ++ rest) 0 w = (0, w)
  /\ tryHandleOSCQuery t (osc_prefix kind ++ rest) 0 w = (0, w).
Proof.
  intros Hkind Hrest.
  assert (Hl : len (osc_prefix kind ++ rest) = 5 + len rest) by (rewrite len_app; reflexivity).
  pose proof (len_nonneg rest) as Hlen.
  assert (Hend : findOSCEnd t (osc_prefix kind ++ rest) (0 + 5) = -1).
  { unfold findOSCEnd.
    change (skipn (Z.to_nat (0 + 5)) (osc_prefix kind ++ rest)) with rest.
    rewrite findOSCEnd_from_spec, terminator_end_none by exact Hrest.
    reflexivity. }
  unfold tryHandleCSIQuery, tryHandleOSCQuery, bind.
  rewrite Hend, Hl.
  change (at_ (osc_prefix kind ++ rest) (0 + 1)) with "]"%byte.
  change (at_ (osc_prefix kind ++ rest) (0 + 2)) with "1"%byte.
  change (at_ (osc_prefix kind ++ rest) (0 + 3)) with kind.
  change (at_ (osc_prefix kind ++ rest) (0 + 4)) with ";"%byte.
  destruct Hkind as [-> | ->]; zcases; try lia; split; reflexivity.
Qed.

(** C7. Where the buffer holds the prefix of an OSC colour query, ESC ] 1 0 ;
    or ESC ] 1 1 ;, and neither BEL nor ESC \ occurs in the bytes after it,
    nothing is recognised at the prefix, whatever precedes it: the call
    reports no match and the world is as before, no answer is written, and
    the scanning loop moves the five bytes of the prefix to the output as
    they are.  In a buffer whose bytes before the prefix are plain text, the
    prefix comes out where it stood, between that text and what the filter
    makes of the remainder; with a plain remainder the filter returns the
    whole buffer and writes nothing. *)
Theorem unterminated_OSC_query_passes_through
    (t : Terminal) (kind : byte) (pre rest : bytes) (w : World) :
  kind = "0"%byte \/ kind = "1"%byte ->
  ~ has_terminator rest ->
  let data := pre ++ osc_prefix kind ++ rest in
  tryHandleOSCQuery t data (len pre) w = (0, w)
  /\ tryHandleQuery t data (len pre) w = (0, w)
  /\ (forall fuel result,
      scan (5 + fuel) t data (len pre) result w
      = scan fuel t data (len pre + 5) (result ++ osc_prefix kind) w)
  /\ (Forall plain pre ->
      handleTerminalQueries t data w
        = map_out (fun out => pre ++ osc_prefix kind ++ out)
            (handleTerminalQueries t rest w))
  /\ (Forall plain pre -> Forall plain rest ->
      handleTerminalQueries t data w = (Some data, w)).
Proof.
  intros Hkind Hrest data.
  destruct (osc_prefix_not_recognised t w Hkind Hrest) as [Hcsi Hosc].
  assert (Hquery : tryHandleQuery t (osc_prefix kind ++ rest) 0 w = (0, w)).
  { unfold tryHandleQuery, bind; rewrite Hcsi.
    change (0 >? 0) with false; cbv beta iota.
    rewrite Hosc; reflexivity. }
  assert (Hkind' : plain kind) by (destruct Hkind; subst; discriminate).
  assert (Hwhole : Forall plain pre ->
            handleTerminalQueries t data w
            = map_out (fun out => pre ++ osc_prefix kind ++ out)
                (handleTerminalQueries t rest w)).
  { intros Hpre; unfold data.
    rewrite handle_plain_prefix by exact Hpre.
    change (osc_prefix kind ++ rest)
      with (ESC :: "]"%byte :: "1"%byte :: kind :: ";"%byte :: rest).
    rewrite handle_cons_pass by (right; right; exists 0; split; [exact Hquery | lia]).
    rewrite handle_cons_pass by (left; discriminate).
    rewrite handle_cons_pass by (left; discriminate).
    rewrite handle_cons_pass by (left; exact Hkind').
    rewrite handle_cons_pass by (left; discriminate).
    rewrite !map_out_map_out. reflexivity. }
  assert (Hloop : forall fuel result,
            scan (5 + fuel) t data (len pre) result w
            = scan fuel t data (len pre + 5) (result ++ osc_prefix kind) w).
  { intros fuel result; unfold data.
    pose proof (len_nonneg rest) as Hlen.
    assert (Hl : len (osc_prefix kind ++ rest) = 5 + len rest)
      by (rewrite len_app; reflexivity).
    change (5 + fuel)%nat with (S (S (S (S (S fuel))))).
    replace (len pre) with (len pre + 0) at 1 by lia.
    rewrite scan_pass_step by (lia || (right; exact Hquery)).
    rewrite scan_pass_step by (lia || (left; discriminate)).
    rewrite scan_pass_step by (lia || (left; discriminate)).
    rewrite scan_pass_step by (lia || (left; exact Hkind')).
    rewrite scan_pass_step by (lia || (left; discriminate)).
    rewrite <- !app_assoc. reflexivity. }
  replace (len pre) with (len pre + 0) at 1 2 by lia.
  unfold data at 1 2.
  rewrite tryHandleOSCQuery_shift, tryHandleQuery_shift by lia.
  split; [exact Hosc|].
  split; [exact Hquery|].
  split; [exact Hloop|].
  split; [exact Hwhole|].
  intros Hpre Hplain.
  rewrite Hwhole, handle_plain by assumption.
  reflexivity.
Qed.

(** The text "ab" followed by an unfinished background-colour query. *)
Lemma unterminated_OSC_query_passes_through_witness :
  let data := bytes_of "ab" ++ osc_prefix "1" ++ bytes_of "?" in
  tryHandleQuery default_session data 2 [] = (0, [])
  /\ handleTerminalQueries default_session data [] = (Some data, []).
Proof.
  intros data.
  assert (Hrest : ~ has_terminator (bytes_of "?")).
  { intros [[H | []] | (a & b & H)]; [discriminate|].
    destruct a as [|x [|y a]]; discriminate. }
  assert (Hplain : Forall plain (bytes_of "ab") /\ Forall plain (bytes_of "?")).
  { split; repeat constructor; discriminate. }
  destruct (@unterminated_OSC_query_passes_through default_session "1"%byte
              (bytes_of "ab") (bytes_of "?") [] (or_intror eq_refl) Hrest)
    as (_ & Hq & _ & _ & Hall).
  split; [exact Hq|].
  exact (Hall (proj1 Hplain) (proj2 Hplain)).
Defined.

(** ** Creation and resize *)

Lemma uint16_valid (z : Z) : valid_dimension z -> uint16 z = z.
Proof.
  unfold valid_dimension, maxTerminalDimension, uint16; intros H.
  apply Z.mod_small; lia.
Qed.

Lemma New_valid (os : OS) (w : World) command args opts :
  valid_dimension (Rows opts) -> valid_dimension (Cols opts) ->
  (forall ws, start_error os w command args ws = None) ->
  exists t ws, New os command args opts w = (Ok t, w ++ [EvStartWithSize command args ws]).
Proof.
  unfold valid_dimension, maxTerminalDimension; intros Hr Hc Hos.
  unfold New, bind, pty_StartWithSize, ret, maxTerminalDimension.
  destruct opts as [R C E]; simpl in *.
  destruct (Z.eqb_spec R 0); simpl; destruct (Z.eqb_spec C 0); simpl;
    zcases; simpl; try lia; rewrite Hos; eauto.
Qed.

Lemma Resize_valid (os : OS) (w : World) t c r :
  valid_dimension r -> valid_dimension c ->
  setsize_error os w (mkWinsize r c) = None ->
  exists t', Resize os t c r w = ((None, t'), w ++ [EvSetsize (mkWinsize r c)]).
Proof.
  intros Hr Hc Hos.
  unfold Resize, bind, pty_Setsize, ret.
  rewrite (uint16_valid Hr), (uint16_valid Hc).
  unfold valid_dimension in *.
  zcases; simpl; try lia.
  rewrite Hos; eauto.
Qed.

Lemma New_oversized (os : OS) (w : World) command args opts :
  Rows opts > maxTerminalDimension \/ Cols opts > maxTerminalDimension ->
  exists e, New os command args opts w = (Err e, w) /\ is_config_error e = true.
Proof.
  unfold maxTerminalDimension; intros H.
  unfold New, ret, maxTerminalDimension.
  destruct opts as [R C E]; simpl in *.
  destruct (Z.eqb_spec R 0); simpl; destruct (Z.eqb_spec C 0); simpl;
    zcases; simpl; try lia; eauto.
Qed.

Lemma Resize_oversized (os : OS) (w : World) t c r :
  r > maxTerminalDimension \/ c > maxTerminalDimension ->
  exists e, Resize os t c r w = ((Some e, t), w) /\ is_config_error e = true.
Proof.
  intros H.
  unfold Resize, ret.
  zcases; simpl; try lia; eauto.
Qed.

(** C4, as the code has it.  With rows and cols both in [0, 65535], creation
    succeeds when the operating system spawns the child, and resize succeeds
    when the operating system accepts the new size; the size reaches the
    operating system untruncated.  With rows or cols above 65535, creation and
    resize both fail with a configuration error and leave the world as it was:
    no OS-level call has been made. *)
Theorem dimensions_are_validated (os : OS) (w : World) :
  (forall command args opts,
      valid_dimension (Rows opts) -> valid_dimension (Cols opts) ->
      (forall ws, start_error os w command args ws = None) ->
      exists t ws,
        New os command args opts w = (Ok t, w ++ [EvStartWithSize command args ws]))
  /\ (forall t c r,
      valid_dimension r -> valid_dimension c ->
      setsize_error os w (mkWinsize r c) = None ->
      exists t', Resize os t c r w = ((None, t'), w ++ [EvSetsize (mkWinsize r c)]))
  /\ (forall command args opts,
      Rows opts > maxTerminalDimension \/ Cols opts > maxTerminalDimension ->
      exists e, New os command args opts w = (Err e, w) /\ is_config_error e = true)
  /\ (forall t c r,
      r > maxTerminalDimension \/ c > maxTerminalDimension ->
      exists e, Resize os t c r w = ((Some e, t), w) /\ is_config_error e = true).
Proof.
  repeat split; intros.
  - now apply New_valid.
  - now apply Resize_valid.
  - now apply New_oversized.
  - now apply Resize_oversized.
Qed.

Lemma dimensions_are_validated_witness :
  (exists t ws,
      New os_ok "sh" [] (mkOptions 43 132 []) [] = (Ok t, [] ++ [EvStartWithSize "sh" [] ws]))
  /\ (exists t',
      Resize os_ok default_session 132 43 [] = ((None, t'), [] ++ [EvSetsize (mkWinsize 43 132)]))
  /\ (exists e,
      New os_ok "sh" [] (mkOptions 65536 80 []) [] = (Err e, []) /\ is_config_error e = true)
  /\ (exists e,
      Resize os_ok default_session 65536 24 [] = ((Some e, default_session), [])
      /\ is_config_error e = true).
Proof.
  destruct (dimensions_are_validated os_ok []) as (H1 & H2 & H3 & H4).
  split; [|split; [|split]].
  - apply H1; unfold valid_dimension, maxTerminalDimension; simpl; [lia | lia | reflexivity].
  - apply H2; unfold valid_dimension, maxTerminalDimension; simpl; [lia | lia | reflexivity].
  - apply H3; unfold maxTerminalDimension; simpl; left; lia.
  - apply H4; unfold maxTerminalDimension; right; lia.
Defined.

(** C4 as stated fails for resize: a size within bounds does
    not make resize succeed, the error of the OS-level sizing call is
    returned. *)
Lemma Resize_in_bounds_may_fail :
  valid_dimension 24 /\ valid_dimension 80
  /\ fst (Resize os_closed default_session 80 24 [])
     = (Some (ErrOS (Errno 9)), default_session).
Proof.
  unfold valid_dimension, maxTerminalDimension.
  repeat split; try lia; discriminate.
Qed.

Lemma Resize_error_unchanged (os : OS) (t : Terminal) (c r : Z) (w : World)
    (e : Error) (t' : Terminal) (w' : World) :
  Resize os t c r w = ((Some e, t'), w') -> t' = t.
Proof.
  unfold Resize, bind, pty_Setsize, ret.
  destruct ((r <? 0) || (r >? maxTerminalDimension)).
  - intros [= _ <- _]; auto.
  - destruct ((c <? 0) || (c >? maxTerminalDimension)).
    + intros [= _ <- _]; auto.
    + destruct (setsize_error os w _); [intros [= _ <- _]; auto | discriminate].
Qed.

(** C10. A resize that returns an error, be it from the validation of the
    dimensions or from the OS-level sizing call, leaves the session as it
    was: the recorded rows and cols and the installed model are the previous
    ones. *)
Theorem failed_Resize_changes_nothing (os : OS) (t : Terminal) (c r : Z) (w : World)
    (e : Error) (t' : Terminal) (w' : World) :
  Resize os t c r w = ((Some e, t'), w') ->
  t' = t /\ rows t' = rows t /\ cols t' = cols t /\ vt t' = vt t.
Proof.
  intros H; apply Resize_error_unchanged in H; subst; auto.
Qed.

(** Resizing the default session to 132 x 43 on a closed PTY, and to 70000
    rows, both fail and leave it at 24 x 80. *)
Lemma failed_Resize_changes_nothing_witness :
  let closed := Resize os_closed default_session 132 43 [] in
  let oversized := Resize os_ok default_session 132 70000 [] in
  fst (fst closed) = Some (ErrOS (Errno 9))
  /\ fst (fst oversized) = Some ErrRows
  /\ rows (snd (fst closed)) = 24 /\ cols (snd (fst closed)) = 80
  /\ rows (snd (fst oversized)) = 24 /\ cols (snd (fst oversized)) = 80.
Proof.
  intros closed oversized.
  destruct (@failed_Resize_changes_nothing os_closed default_session 132 43 []
              (ErrOS (Errno 9)) (snd (fst closed)) (snd closed) eq_refl)
    as (_ & Hr1 & Hc1 & _).
  destruct (@failed_Resize_changes_nothing os_ok default_session 132 70000 []
              ErrRows (snd (fst oversized)) (snd oversized) eq_refl)
    as (_ & Hr2 & Hc2 & _).
  repeat split; assumption || reflexivity.
Defined.



(** C3, on the code.  The interceptor lets device-status-report queries
    through untouched, and the model [New] installs has the PTY as its writer;
    but the model a successful [Resize] installs is built without a writer,
    so a session that has been resized holds a model that cannot answer. *)
Theorem Resize_installs_model_without_writer :
  (forall t w,
      handleTerminalQueries t [ESC; "["%byte; "6"%byte; "n"%byte] w
        = (Some [ESC; "["%byte; "6"%byte; "n"%byte], w)
      /\ handleTerminalQueries t [ESC; "["%byte; "5"%byte; "n"%byte] w
        = (Some [ESC; "["%byte; "5"%byte; "n"%byte], w))
  /\ exists t w t' w',
      New os_ok "sh" [] DefaultOptions [] = (Ok t, w)
      /\ vt_writer (vt t) = PtyWriter
      /\ Resize os_ok t 132 43 w = ((None, t'), w')
      /\ reachable os_ok t'
      /\ vt_writer (vt t') = Discard.
Proof.
  split.
  - intros t w; split; reflexivity.
  - assert (Hnew : New os_ok "sh" [] DefaultOptions []
                   = (Ok default_session, [EvStartWithSize "sh" [] (mkWinsize 24 80)]))
      by reflexivity.
    exists default_session, [EvStartWithSize "sh" [] (mkWinsize 24 80)].
    exists (mkTerminal (cmd default_session) (vt10x_New [WithSize 132 43]) 43 132).
    exists [EvStartWithSize "sh" [] (mkWinsize 24 80); EvSetsize (mkWinsize 43 132)].
    split; [exact Hnew|].
    split; [reflexivity|].
    split; [reflexivity|].
    split; [|reflexivity].
    apply (@reach_Resize os_ok default_session 132 43
             [EvStartWithSize "sh" [] (mkWinsize 24 80)] None _
             [EvStartWithSize "sh" [] (mkWinsize 24 80); EvSetsize (mkWinsize 43 132)]).
    + exact (reach_New _ _ _ _ _ Hnew).
    + reflexivity.
Qed.


(** ** Snapshots *)

(** C2, on the code.  A snapshot is the rendered text of the installed model
    and nothing else: [ScreenshotWithCursor] returns the very text
    [Screenshot] returns, whatever the cursor.  Two sessions that show the
    same text with cursors differing in row, column and visibility have the
    same snapshot, so the cursor cannot be had from it. *)
Theorem ScreenshotWithCursor_returns_plain_text :
  (forall t, Screenshot t = vt_String (vt t) /\ ScreenshotWithCursor t = Screenshot t)
  /\ (forall t row col visible,
        ScreenshotWithCursor (set_cursor t row col visible) = ScreenshotWithCursor t)
  /\ (let t1 := showing ["abc"%string] 0 0 true in
      let t2 := showing ["abc"%string] 5 7 false in
      ScreenshotWithCursor t1 = ScreenshotWithCursor t2
      /\ vt_cursor_row (vt t1) <> vt_cursor_row (vt t2)
      /\ vt_cursor_col (vt t1) <> vt_cursor_col (vt t2)
      /\ vt_cursor_visible (vt t1) <> vt_cursor_visible (vt t2)).
Proof.
  split; [intros t; split; reflexivity|].
  split; [intros; reflexivity|].
  repeat split; discriminate.
Qed.

(** ** The polling waits *)

Lemma prefix_spec (p s : string) :
  prefix p s = true <-> exists b, s = (p ++ b)%string.
Proof.
  revert s; induction p as [|a p IH]; intros s; simpl.
  - destruct s; split; eauto.
  - destruct s as [|b s]; simpl.
    + split; [discriminate | intros (x & H); discriminate].
    + destruct (ascii_dec a b) as [->|Hne].
      * rewrite IH; split; intros (x & H); exists x; [subst; reflexivity | now inversion H].
      * split; [discriminate | intros (x & H); congruence].
Qed.

Lemma Contains_eq (s sub : string) :
  Contains s sub
  = if prefix sub s then true
    else match s with
         | EmptyString => false
         | String _ s' => Contains s' sub
         end.
Proof. destruct s; reflexivity. Qed.

(** [Contains] decides the occurrence of a substring. *)
Lemma Contains_spec (s sub : string) :
  Contains s sub = true <-> substring_of sub s.
Proof.
  unfold substring_of.
  induction s as [|c s IH]; rewrite Contains_eq.
  - destruct (prefix sub "") eqn:Hp.
    + split; [intros _|reflexivity].
      apply prefix_spec in Hp as (b & Hb). exists EmptyString, b. exact Hb.
    + split; [discriminate|].
      intros (a & b & H). destruct a; [|discriminate].
      simpl in H. assert (prefix sub "" = true) by (apply prefix_spec; eauto).
      congruence.
  - destruct (prefix sub (String c s)) eqn:Hp.
    + split; [intros _|reflexivity].
      apply prefix_spec in Hp as (b & Hb). exists EmptyString, b. exact Hb.
    + rewrite IH. split.
      * intros (a & b & ->). exists (String c a), b. reflexivity.
      * intros (a & b & H). destruct a as [|c' a].
        -- simpl in H. assert (prefix sub (String c s) = true) by (apply prefix_spec; eauto).
           congruence.
        -- inversion H; subst. eauto.
Qed.

Lemma containsText_spec (screen target : string) :
  containsText screen target = true <-> target <> EmptyString /\ substring_of target screen.
Proof.
  unfold containsText.
  rewrite !andb_true_iff, !negb_true_iff, !String.eqb_neq, Contains_spec.
  split; [tauto|].
  intros [Hne Hsub]; repeat split; auto.
  destruct Hsub as (a & b & ->).
  destruct a; simpl; [|discriminate].
  destruct target; [contradiction|discriminate].
Qed.

Lemma containsText_empty (screen : string) : containsText screen "" = false.
Proof. reflexivity. Qed.

Lemma text_loop_empty (polls : list Poll) (deadline : Z) :
  text_loop polls deadline "" <> Returned None.
Proof.
  induction polls as [|p polls IH]; simpl; [discriminate|].
  destruct (at_check p <? deadline); [exact IH | discriminate].
Qed.

Lemma text_loop_timeout (seen : list Poll) (p : Poll) (after : list Poll)
    (deadline : Z) (target : string) :
  Forall (in_time deadline) seen ->
  Forall (fun q => ~ substring_of target (text q)) seen \/ target = EmptyString ->
  deadline <= at_check p ->
  text_loop (seen ++ p :: after) deadline target = Returned (Some (ErrTextTimeout target)).
Proof.
  unfold in_time; intros Hseen Hnot Hp.
  induction Hseen as [|q seen Hq Hseen IH]; simpl.
  - destruct (Z.ltb_spec (at_check p) deadline); [lia | reflexivity].
  - destruct (Z.ltb_spec (at_check q) deadline); [|lia].
    destruct (containsText (Screenshot (session q)) target) eqn:Hc.
    + apply containsText_spec in Hc as [Hne Hsub].
      destruct Hnot as [Hnot | ->]; [|contradiction].
      inversion Hnot; subst. contradiction.
    + apply IH. destruct Hnot as [Hnot | ->]; [left; now inversion Hnot | now right].
Qed.

Lemma text_loop_found (seen : list Poll) (p : Poll) (after : list Poll)
    (deadline : Z) (target : string) :
  target <> EmptyString ->
  Forall (in_time deadline) (seen ++ [p]) ->
  substring_of target (text p) ->
  text_loop (seen ++ p :: after) deadline target = Returned None.
Proof.
  unfold in_time; intros Hne Hseen Hsub.
  induction seen as [|q seen IH]; simpl in *.
  - inversion Hseen; subst.
    destruct (Z.ltb_spec (at_check p) deadline); [|lia].
    replace (containsText (Screenshot (session p)) target) with true; [reflexivity|].
    symmetry; apply containsText_spec; auto.
  - inversion Hseen; subst.
    destruct (Z.ltb_spec (at_check q) deadline); [|lia].
    destruct (containsText (Screenshot (session q)) target); [reflexivity|].
    apply IH; assumption.
Qed.

Lemma text_loop_polling (seen : list Poll) (deadline : Z) (target : string) :
  Forall (in_time deadline) seen ->
  Forall (fun q => ~ substring_of target (text q)) seen ->
  text_loop seen deadline target = Polling.
Proof.
  unfold in_time; intros Hseen Hnot.
  induction Hseen as [|q seen Hq Hseen IH]; simpl; [reflexivity|].
  destruct (Z.ltb_spec (at_check q) deadline); [|lia].
  inversion Hnot; subst.
  destruct (containsText (Screenshot (session q)) target) eqn:Hc.
  - apply containsText_spec in Hc as [_ Hsub]. contradiction.
  - apply IH; assumption.
Qed.

(** C9. [WaitForText] with the empty target never returns success, whatever
    the screen shows, and returns its timeout error at the first poll that
    finds the deadline reached.  With a target that is not empty it returns
    success at the first poll, among those made before the deadline, whose
    snapshot contains the target as a substring: it is still polling while no
    snapshot contained it, and it returns success at the poll whose snapshot
    does, whatever would have come after. *)
Theorem WaitForText_finds_text (start timeout : Z) :
  let deadline := start + timeout in
  (forall polls, WaitForText start polls "" timeout <> Returned None)
  /\ (forall seen p after,
      Forall (in_time deadline) seen ->
      deadline <= at_check p ->
      WaitForText start (seen ++ p :: after) "" timeout
        = Returned (Some (ErrTextTimeout "")))
  /\ (forall target seen,
      target <> EmptyString ->
      Forall (in_time deadline) seen ->
      Forall (fun q => ~ substring_of target (text q)) seen ->
      WaitForText start seen target timeout = Polling)
  /\ (forall target seen p after,
      target <> EmptyString ->
      Forall (in_time deadline) (seen ++ [p]) ->
      substring_of target (text p) ->
      WaitForText start (seen ++ p :: after) target timeout = Returned None).
Proof.
  intros deadline; unfold WaitForText; fold deadline.
  split; [|split; [|split]].
  - intros polls; apply text_loop_empty.
  - intros seen p after Hseen Hp. apply text_loop_timeout; auto.
  - intros target seen _ Hseen Hnot. apply text_loop_polling; assumption.
  - intros target seen p after Hne Hseen Hsub. apply text_loop_found; assumption.
Qed.

(** On a screen showing "Main Menu", waiting for "Menu" succeeds at the first
    poll, and waiting for the empty text times out at the poll that finds the
    100 ms used up. *)
Lemma WaitForText_finds_text_witness :
  let t := showing ["Main Menu"%string] 0 0 true in
  WaitForText 0 (polls_of t 0 3) "Menu" (ms 100) = Returned None
  /\ WaitForText 0 (polls_of t 0 3) "" (ms 100) = Returned (Some (ErrTextTimeout "")).
Proof.
  intros t.
  destruct (WaitForText_finds_text 0 (ms 100)) as (_ & Hempty & _ & Hfound).
  split.
  - apply (Hfound "Menu"%string [] (mkPoll 0 t 0) (polls_of t (ms 50) 2)).
    + discriminate.
    + repeat constructor.
    + exists "Main "%string, newline. reflexivity.
  - apply (Hempty [mkPoll 0 t 0; mkPoll (ms 50) t (ms 50)] (mkPoll (ms 100) t (ms 100)) []).
    + repeat constructor.
    + unfold ms; simpl; lia.
Defined.

Lemma last_text_app (init : string) (seen : list Poll) (p : Poll) :
  last_text init (seen ++ [p]) = text p.
Proof. revert init; induction seen as [|q seen IH]; intros init; simpl; auto. Qed.

Lemma settled_from_start (stableDuration : Z) (seen : list Poll) :
  settled_from "" None stableDuration seen <-> settled stableDuration seen.
Proof.
  unfold settled_from, settled; split.
  - intros [H | (s & same & p & Hs & _)]; [exact H | discriminate].
  - intros H; left; exact H.
Qed.

(** The loop returns success exactly when the polls it is given begin with
    polls, all made before the deadline, that end in a settled stretch. *)
Lemma stable_loop_success (deadline stableDuration : Z) (polls : list Poll) :
  forall last since,
    stable_loop polls deadline stableDuration last since = Returned None
    <-> exists seen after,
        polls = seen ++ after
        /\ Forall (in_time deadline) seen
        /\ settled_from last since stableDuration seen.
Proof.
  unfold in_time.
  induction polls as [|p polls IH]; intros last since; simpl.
  - split; [discriminate|].
    intros (seen & after & Heq & _ & Hset).
    symmetry in Heq; apply app_eq_nil in Heq as [-> _].
    destruct Hset as [(b & c & sm & q & H & _) | (s & sm & q & _ & H & _)];
      [destruct b | destruct sm]; discriminate.
  - destruct (Z.ltb_spec (at_check p) deadline) as [Hp | Hp].
    2:{ split; [discriminate|].
        intros (seen & after & Heq & Hin & Hset).
        destruct seen as [|p' seen].
        - destruct Hset as [(b & c & sm & q & H & _) | (s & sm & q & _ & H & _)];
            [destruct b | destruct sm]; discriminate.
        - inversion Heq; subst p'. inversion Hin; subst. lia. }
    fold (text p).
    destruct (String.eqb_spec (text p) last) as [Hsame | Hdiff]; cbn [negb].
    + (* the poll shows the text seen last *)
      assert (Hcont :
        (exists seen after, polls = seen ++ after
           /\ Forall (fun q => at_check q < deadline) seen
           /\ settled_from last since stableDuration seen)
        -> exists seen after, p :: polls = seen ++ after
           /\ Forall (fun q => at_check q < deadline) seen
           /\ settled_from last since stableDuration seen).
      { intros (seen & after & -> & Hin & Hset).
        exists (p :: seen), after. split; [reflexivity|]. split; [constructor; assumption|].
        destruct Hset as [(b & c & sm & q & -> & Hc & Hall & Hd) | (s & sm & q & Hs & -> & Hall & Hd)].
        - left. exists (p :: b), c, sm, q. simpl. rewrite Hsame. auto.
        - right. exists s, (p :: sm), q. simpl. repeat split; auto. }
      assert (Hback : forall seen after,
        p :: polls = seen ++ after ->
        Forall (fun q => at_check q < deadline) seen ->
        settled_from last since stableDuration seen ->
        (exists s, since = Some s /\ stableDuration <= at_obs p - s)
        \/ exists seen' after', polls = seen' ++ after'
           /\ Forall (fun q => at_check q < deadline) seen'
           /\ settled_from last since stableDuration seen').
      { intros seen after Heq Hin Hset.
        destruct Hset as [(b & c & sm & q & -> & Hc & Hall & Hd) | (s & sm & q & Hs & -> & Hall & Hd)].
        - destruct b as [|p' b]; simpl in Heq; inversion Heq; subst.
          + simpl in Hc. contradiction.
          + right. exists (b ++ c :: sm ++ [q]), after. split; [reflexivity|].
            split; [now inversion Hin|].
            left. exists b, c, sm, q. simpl in Hc. auto.
        - destruct sm as [|p' sm]; simpl in Heq; inversion Heq; subst.
          + left. eauto.
          + right. exists (sm ++ [q]), after. split; [reflexivity|].
            split; [now inversion Hin|].
            right. exists s, sm, q. simpl in Hall. inversion Hall; subst. auto. }
      destruct since as [s|].
      * destruct (Z.geb_spec (at_obs p - s) stableDuration) as [Hd | Hd].
        -- split; [intros _|reflexivity].
           exists [p], polls. split; [reflexivity|]. split; [repeat constructor; assumption|].
           right. exists s, [], p. simpl. repeat split; auto; lia.
        -- rewrite IH. split; [exact Hcont|].
           intros (seen & after & Heq & Hin & Hset).
           destruct (Hback seen after Heq Hin Hset) as [(s' & [= <-] & Hd') | H]; [lia | exact H].
      * rewrite IH. split; [exact Hcont|].
        intros (seen & after & Heq & Hin & Hset).
        destruct (Hback seen after Heq Hin Hset) as [(s' & Hs & _) | H]; [discriminate | exact H].
    + (* the poll shows another text *)
      rewrite IH. split.
      * intros (seen & after & -> & Hin & Hset).
        exists (p :: seen), after. split; [reflexivity|]. split; [constructor; assumption|].
        left.
        destruct Hset as [(b & c & sm & q & -> & Hc & Hall & Hd) | (s & sm & q & Hs & -> & Hall & Hd)].
        -- exists (p :: b), c, sm, q. simpl. auto.
        -- inversion Hs; subst s. exists [], p, sm, q. simpl. auto.
      * intros (seen & after & Heq & Hin & Hset).
        destruct Hset as [(b & c & sm & q & -> & Hc & Hall & Hd) | (s & sm & q & Hs & -> & Hall & Hd)].
        -- destruct b as [|p' b]; simpl in Heq; inversion Heq; subst.
           ++ exists (sm ++ [q]), after. split; [reflexivity|].
              split; [now inversion Hin|].
              right. exists (at_obs c), sm, q. auto.
           ++ exists (b ++ c :: sm ++ [q]), after. split; [reflexivity|].
              split; [now inversion Hin|].
              left. exists b, c, sm, q. simpl in Hc. auto.
        -- exfalso. destruct sm as [|p' sm]; simpl in Heq; inversion Heq; subst;
             inversion Hall; subst; contradiction.
Qed.

(** Once a poll finds the deadline reached, the loop has returned. *)
Lemma stable_loop_returns (deadline stableDuration : Z) (seen : list Poll) (q : Poll)
    (after : list Poll) :
  Forall (in_time deadline) seen ->
  deadline <= at_check q ->
  forall last since,
    stable_loop (seen ++ q :: after) deadline stableDuration last since = Returned None
    \/ stable_loop (seen ++ q :: after) deadline stableDuration last since
       = Returned (Some ErrStableTimeout).
Proof.
  unfold in_time; intros Hseen Hq.
  induction Hseen as [|p seen Hp Hseen IH]; intros last since; simpl.
  - destruct (Z.ltb_spec (at_check q) deadline); [lia | right; reflexivity].
  - destruct (Z.ltb_spec (at_check p) deadline); [|lia].
    destruct (negb _); [apply IH|].
    destruct since as [s|]; [|apply IH].
    destruct (at_obs p - s >=? stableDuration); [left; reflexivity | apply IH].
Qed.

(** Polls made before the deadline all come before one that was not. *)
Lemma in_time_prefix (deadline : Z) (seen : list Poll) (q : Poll) (after : list Poll) :
  forall seen2 after2,
    seen ++ q :: after = seen2 ++ after2 ->
    Forall (in_time deadline) seen2 ->
    deadline <= at_check q ->
    exists rest, seen = seen2 ++ rest.
Proof.
  unfold in_time.
  induction seen as [|p seen IH]; intros seen2 after2 Heq Hin Hq.
  - destruct seen2 as [|p2 seen2]; [exists []; reflexivity|].
    simpl in Heq; inversion Heq; subst. inversion Hin; subst. lia.
  - destruct seen2 as [|p2 seen2]; [eexists; reflexivity|].
    simpl in Heq; inversion Heq; subst.
    destruct (IH seen2 after2 H1) as (rest & ->); [now inversion Hin | assumption|].
    exists rest; reflexivity.
Qed.

Lemma last_text_empty (seen : list Poll) :
  Forall (fun p => text p = EmptyString) seen -> last_text "" seen = EmptyString.
Proof.
  induction 1 as [|p seen Hp Hseen IH]; simpl; [reflexivity|].
  rewrite Hp; exact IH.
Qed.

(** C1, as the code has it.  [WaitForStable] returns success exactly when,
    before the deadline, the polls come to end in a settled stretch: some
    poll found a text other than the one seen before it (other than the empty
    text, for the first poll), every later poll found the same text, and the
    clock advanced by at least [stableDuration] between the two ends of the
    stretch; in particular it returns success for a non-empty screen that
    never changes from the first poll on, and it returns success only when
    the polls of the stretch were all equal and the stretch lasted
    [stableDuration].  It returns its timeout error when a poll finds the
    deadline reached and the polls before it never ended in a settled
    stretch.  A screen that is the empty text at every poll is never reported
    stable. *)
Theorem WaitForStable_settles (start timeout stableDuration : Z) (polls : list Poll) :
  let deadline := start + timeout in
  (WaitForStable start polls timeout stableDuration = Returned None
   <-> exists seen after,
       polls = seen ++ after
       /\ Forall (in_time deadline) seen
       /\ settled stableDuration seen)
  /\ (forall seen q after,
      polls = seen ++ q :: after ->
      Forall (in_time deadline) seen ->
      deadline <= at_check q ->
      (forall seen' rest, seen = seen' ++ rest -> ~ settled stableDuration seen') ->
      WaitForStable start polls timeout stableDuration = Returned (Some ErrStableTimeout))
  /\ (Forall (fun p => text p = EmptyString) polls ->
      WaitForStable start polls timeout stableDuration <> Returned None).
Proof.
  intros deadline.
  assert (Hiff : WaitForStable start polls timeout stableDuration = Returned None
                 <-> exists seen after,
                     polls = seen ++ after
                     /\ Forall (in_time deadline) seen
                     /\ settled stableDuration seen).
  { unfold WaitForStable; fold deadline.
    rewrite stable_loop_success.
    split; intros (seen & after & Heq & Hin & Hset); exists seen, after;
      (split; [exact Heq|]); (split; [exact Hin|]); now apply settled_from_start. }
  split; [exact Hiff|]. split.
  - intros seen q after -> Hseen Hq Hnever.
    destruct (@stable_loop_returns deadline stableDuration seen q after Hseen Hq
                ""%string None) as [Hsucc | Hto]; [|exact Hto].
    exfalso.
    apply Hiff in Hsucc as (seen2 & after2 & Heq & Hin & Hset).
    destruct (in_time_prefix _ _ _ _ Heq Hin Hq) as (rest & Hrest).
    exact (Hnever seen2 rest Hrest Hset).
  - intros Hempty Hsucc.
    apply Hiff in Hsucc as (seen & after & -> & _ & (b & c & sm & p & -> & Hc & _)).
    apply Forall_app in Hempty as [Hempty _].
    apply Forall_app in Hempty as [Hb Hrest].
    inversion Hrest; subst.
    rewrite (last_text_empty Hb) in Hc. contradiction.
Qed.

(** A screen showing "ready" from the first poll on is reported stable once
    100 ms have passed; a screen that shows "a" and then "b" is not stable
    within a timeout of 100 ms. *)
Lemma WaitForStable_settles_witness :
  let t := showing ["ready"%string] 0 0 true in
  let a := showing ["a"%string] 0 0 true in
  let b := showing ["b"%string] 0 0 true in
  WaitForStable 0 (polls_of t 0 4) (ms 1000) (ms 100) = Returned None
  /\ WaitForStable 0 [mkPoll 0 a 0; mkPoll (ms 50) b (ms 50); mkPoll (ms 100) b (ms 100)]
       (ms 100) (ms 100)
     = Returned (Some ErrStableTimeout).
Proof.
  intros t a b. split.
  - apply (proj1 (WaitForStable_settles 0 (ms 1000) (ms 100) (polls_of t 0 4))).
    exists (polls_of t 0 3), (polls_of t (ms 150) 1).
    split; [reflexivity|].
    split; [repeat constructor|].
    exists [], (mkPoll 0 t 0), [mkPoll (ms 50) t (ms 50)], (mkPoll (ms 100) t (ms 100)).
    split; [reflexivity|].
    split; [discriminate|].
    split; [repeat constructor|].
    unfold ms; simpl; lia.
  - apply (proj1 (proj2 (WaitForStable_settles 0 (ms 100) (ms 100) _))
             [mkPoll 0 a 0; mkPoll (ms 50) b (ms 50)] (mkPoll (ms 100) b (ms 100)) []).
    + reflexivity.
    + repeat constructor.
    + unfold ms; simpl; lia.
    + intros seen' rest Heq (bf & c & sm & p & -> & Hc & Hall & Hd).
      destruct bf as [|p0 bf]; simpl in Heq.
      * inversion Heq as [[Hc0 Htail]]; subst c.
        destruct sm as [|p1 sm]; simpl in Htail.
        -- inversion Htail as [[Hp Hrest]]; subst p.
           inversion Hall as [|? ? Hab _]; subst. discriminate Hab.
        -- inversion Htail as [[Hp1 Hrest]]; subst p1.
           inversion Hall as [|? ? Hab _]; subst. discriminate Hab.
      * inversion Heq as [[Hp0 Htail]]; subst p0.
        destruct bf as [|p1 bf]; simpl in Htail.
        -- inversion Htail as [[Hc1 Hrest]]; subst c.
           destruct sm; simpl in Hrest; discriminate Hrest.
        -- inversion Htail as [[Hp1 Hrest]].
           destruct bf; simpl in Hrest; discriminate Hrest.
Defined.

(** C1 as stated fails: the session resized to 0 x 0 shows the
    empty text at every poll; its screen has been unchanged for 100 ms at the
    third poll, well before the deadline, and the wait ends in the timeout
    error. *)
Lemma WaitForStable_empty_screen_times_out :
  let polls := polls_of empty_session 0 5 in
  fst (Resize os_ok default_session 0 0 []) = (None, empty_session)
  /\ Screenshot empty_session = EmptyString
  /\ (exists seen after,
        polls = seen ++ after
        /\ Forall (in_time (0 + ms 200)) seen
        /\ unchanged_for (ms 100) seen)
  /\ WaitForStable 0 polls (ms 200) (ms 100) = Returned (Some ErrStableTimeout).
Proof.
  intros polls.
  split; [reflexivity|].
  split; [reflexivity|].
  split; [|reflexivity].
  exists (polls_of empty_session 0 3), (polls_of empty_session (ms 150) 2).
  split; [reflexivity|].
  split; [repeat constructor|].
  exists [], (mkPoll 0 empty_session 0), [mkPoll (ms 50) empty_session (ms 50)],
         (mkPoll (ms 100) empty_session (ms 100)).
  split; [reflexivity|].
  split; [repeat constructor|].
  unfold ms; simpl; lia.
Qed.

(** * Further properties *)

(** ** The query interceptor, beyond the recognised queries *)

Lemma subseq_refl (l : bytes) : subseq l l.
Proof. induction l; constructor; assumption. Qed.

Lemma subseq_nil_l (l : bytes) : subseq [] l.
Proof. induction l; constructor; assumption. Qed.

Lemma subseq_skipn (sub l : bytes) (n : nat) : subseq sub (skipn n l) -> subseq sub l.
Proof.
  revert l; induction n as [|n IH]; intros l H; [exact H|].
  destruct l as [|b l]; [exact H|].
  simpl in H. constructor. apply IH; exact H.
Qed.

Lemma subseq_length (sub l : bytes) : subseq sub l -> (List.length sub <= List.length l)%nat.
Proof. induction 1; simpl; lia. Qed.

Lemma skipn_at (data : bytes) (i : Z) :
  0 <= i < len data ->
  skipn (Z.to_nat i) data = at_ data i :: skipn (Z.to_nat (i + 1)) data.
Proof.
  unfold len, at_; intros Hi.
  replace (Z.to_nat (i + 1)) with (S (Z.to_nat i)) by lia.
  assert (Hn : (Z.to_nat i < List.length data)%nat) by lia.
  revert Hn; generalize (Z.to_nat i) as n; clear Hi.
  induction data as [|b data IH]; intros n Hn; simpl in Hn; [lia|].
  destruct n as [|n]; [reflexivity|].
  simpl. apply IH; lia.
Qed.

Lemma terminator_end_range (rest : bytes) (n : nat) :
  terminator_end rest = Some n -> (1 <= n <= List.length rest)%nat.
Proof.
  revert n; induction rest as [|b rest IH]; intros n; simpl; [discriminate|].
  destruct (Byte.eqb b BEL); [intros [= <-]; lia|].
  destruct (Byte.eqb b ESC && _) eqn:Hm.
  - intros [= <-].
    destruct rest as [|c rest']; [rewrite andb_false_r in Hm; discriminate|].
    simpl; lia.
  - destruct (terminator_end rest) as [k|] eqn:E; [|discriminate].
    intros [= <-]. specialize (IH k eq_refl). lia.
Qed.

Lemma findOSCEnd_bounds (t : Terminal) (data : bytes) (k : Z) :
  0 <= k ->
  findOSCEnd t data k = -1 \/ (k < findOSCEnd t data k <= len data).
Proof.
  intros Hk; unfold findOSCEnd.
  rewrite findOSCEnd_from_spec.
  destruct (terminator_end _) as [n|] eqn:E; [right | left; reflexivity].
  apply terminator_end_range in E.
  rewrite length_skipn in E. unfold len. lia.
Qed.

Ltac bcases :=
  repeat match goal with
  | |- context [Byte.eqb ?a ?b] => destruct (Byte.eqb a b)
  end.

Lemma tryHandleXTWINOPS_result (t : Terminal) (data : bytes) (i skip : Z) (w w' : World) :
  tryHandleXTWINOPS t data i w = (skip, w') ->
  (skip = 0 /\ w' = w)
  \/ (skip = 5 /\ i + 5 <= len data /\ exists r, w' = w ++ [EvWriteString r]).
Proof.
  unfold tryHandleXTWINOPS, bind, ret,
    respondToWindowSizePixels, respondToTextAreaSize, respondToScreenSize,
    ptyFile_WriteString, emit.
  zcases; bcases; cbn [andb negb]; intros [= <- <-];
    solve [left; auto | right; split; [reflexivity|]; split; [lia|]; eauto].
Qed.

Lemma tryHandleCSIQuery_result (t : Terminal) (data : bytes) (i skip : Z) (w w' : World) :
  tryHandleCSIQuery t data i w = (skip, w') ->
  (skip = 0 /\ w' = w)
  \/ (3 <= skip <= 5 /\ i + skip <= len data /\ exists r, w' = w ++ [EvWriteString r]).
Proof.
  unfold tryHandleCSIQuery, bind.
  destruct (tryHandleXTWINOPS t data i w) as [s1 w1] eqn:Hxeq.
  pose proof (tryHandleXTWINOPS_result _ _ _ _ Hxeq) as Hx.
  assert (Hxt : (if s1 >? 0 then ret s1 else ret 0) w1 = (skip, w') ->
                (skip = 0 /\ w' = w)
                \/ (3 <= skip <= 5 /\ i + skip <= len data
                    /\ exists r, w' = w ++ [EvWriteString r])).
  { destruct Hx as [[-> ->] | (-> & Hb & r & ->)]; cbv [Z.gtb Z.compare ret]; intros [= <- <-].
    - left; auto.
    - right; split; [lia|]; split; [lia|]; eauto. }
  unfold ret, respondToDA1, respondToDA2, ptyFile_WriteString, emit in *.
  zcases; bcases; cbn [andb orb negb]; cbv beta; rewrite ?Hxeq; try exact Hxt;
    intros [= <- <-];
    solve [left; auto | right; split; [lia|]; split; [lia|]; eauto].
Qed.

Lemma tryHandleOSCQuery_result (t : Terminal) (data : bytes) (i skip : Z) (w w' : World) :
  0 <= i ->
  tryHandleOSCQuery t data i w = (skip, w') ->
  (skip = 0 /\ w' = w)
  \/ (5 < skip /\ i + skip <= len data /\ exists r, w' = w ++ [EvWriteString r]).
Proof.
  intros Hi.
  unfold tryHandleOSCQuery, bind, ret,
    respondToBackgroundColorQuery, respondToForegroundColorQuery,
    ptyFile_WriteString, emit.
  destruct (findOSCEnd_bounds t data (k := i + 5)) as [-> | Hb]; [lia| |].
  - replace (-1 >? i) with false by (symmetry; rewrite Z.gtb_ltb; apply Z.ltb_ge; lia).
    zcases; bcases; cbn [andb orb negb]; intros [= <- <-]; left; auto.
  - set (e := findOSCEnd t data (i + 5)) in *.
    replace (e >? i) with true by (symmetry; rewrite Z.gtb_ltb; apply Z.ltb_lt; lia).
    zcases; bcases; cbn [andb orb negb]; intros [= <- <-];
      solve [left; auto | right; split; [lia|]; split; [lia|]; eauto].
Qed.

Lemma tryHandleQuery_result (t : Terminal) (data : bytes) (i skip : Z) (w w' : World) :
  0 <= i ->
  tryHandleQuery t data i w = (skip, w') ->
  (skip = 0 /\ w' = w)
  \/ (3 <= skip /\ i + skip <= len data /\ exists r, w' = w ++ [EvWriteString r]).
Proof.
  intros Hi; unfold tryHandleQuery, bind.
  destruct (tryHandleCSIQuery t data i w) as [s1 w1] eqn:Hc.
  apply tryHandleCSIQuery_result in Hc.
  destruct Hc as [[-> ->] | (Hs & Hb & r & ->)].
  - change (0 >? 0) with false; cbv beta iota.
    destruct (tryHandleOSCQuery t data i w) as [s2 w2] eqn:Ho.
    apply tryHandleOSCQuery_result in Ho; [|exact Hi].
    destruct Ho as [[-> ->] | (Hs & Hb & r & ->)].
    + cbv [Z.gtb Z.compare ret]; intros [= <- <-]; left; auto.
    + destruct (Z.gtb_spec s2 0); [|lia].
      unfold ret; intros [= <- <-]; right; split; [lia|]; split; [lia|]; eauto.
  - destruct (Z.gtb_spec s1 0); [|lia].
    unfold ret; intros [= <- <-]; right; split; [lia|]; split; [lia|]; eauto.
Qed.

Lemma writes_map (rs : list bytes) : writes (map EvWriteString rs) = rs.
Proof. induction rs as [|r rs IH]; simpl; [|rewrite IH]; reflexivity. Qed.

Lemma sizings_map (rs : list bytes) : sizings (map EvWriteString rs) = [].
Proof. induction rs as [|r rs IH]; simpl; [reflexivity | exact IH]. Qed.

(** What the scanning loop keeps true from any position on: the world only
    gains writes, the output only gains bytes of the buffer in their order,
    and every write has cost at least three bytes of the buffer. *)
Lemma scan_invariant (t : Terminal) (data : bytes) (fuel : nat) :
  forall i result w o w',
    0 <= i <= len data ->
    scan fuel t data i result w = (o, w') ->
    exists rs,
      w' = w ++ map EvWriteString rs
      /\ forall out, o = Some out ->
         exists sub,
           out = result ++ sub
           /\ subseq sub (skipn (Z.to_nat i) data)
           /\ len sub + 3 * Z.of_nat (List.length rs) <= len data - i.
Proof.
  induction fuel as [|fuel IH]; intros i result w o w' Hi; rewrite scan_eq.
  - destruct (Z.ltb_spec i (len data)); unfold ret; intros [= <- <-];
      exists []; (split; [simpl; rewrite app_nil_r; reflexivity|]).
    + discriminate.
    + intros out [= <-]. exists []. split; [rewrite app_nil_r; reflexivity|].
      split; [apply subseq_nil_l|]. unfold len in *; simpl; lia.
  - destruct (Z.ltb_spec i (len data)) as [Hlt | Hge].
    2:{ unfold ret; intros [= <- <-]. exists [].
        split; [simpl; rewrite app_nil_r; reflexivity|].
        intros out [= <-]. exists []. split; [rewrite app_nil_r; reflexivity|].
        split; [apply subseq_nil_l|]. unfold len in *; simpl; lia. }
    assert (Hpass : forall w0 rs0,
              w0 = w ++ map EvWriteString rs0 -> rs0 = [] ->
              scan fuel t data (i + 1) (result ++ [at_ data i]) w0 = (o, w') ->
              exists rs,
                w' = w ++ map EvWriteString rs
                /\ forall out, o = Some out ->
                   exists sub,
                     out = result ++ sub
                     /\ subseq sub (skipn (Z.to_nat i) data)
                     /\ len sub + 3 * Z.of_nat (List.length rs) <= len data - i).
    { intros w0 rs0 -> -> Hscan. simpl in Hscan. rewrite app_nil_r in Hscan.
      apply IH in Hscan as (rs & -> & Hout); [|lia].
      exists rs. split; [reflexivity|].
      intros out Ho. destruct (Hout out Ho) as (sub & -> & Hsub & Hlen).
      exists (at_ data i :: sub). split; [rewrite <- app_assoc; reflexivity|].
      split; [rewrite skipn_at by lia; constructor; exact Hsub|].
      rewrite len_cons. lia. }
    destruct (Byte.eqb (at_ data i) ESC && (i + 1 <? len data)).
    2:{ apply (Hpass w []); [simpl; rewrite app_nil_r|]; reflexivity. }
    unfold bind. destruct (tryHandleQuery t data i w) as [skip w1] eqn:Hq.
    apply tryHandleQuery_result in Hq; [|lia].
    destruct Hq as [[-> ->] | (Hskip & Hb & r & ->)].
    + change (0 >? 0) with false; cbv iota.
      apply (Hpass w []); [simpl; rewrite app_nil_r|]; reflexivity.
    + destruct (Z.gtb_spec skip 0); [|lia].
      intros Hscan. apply IH in Hscan as (rs & -> & Hout); [|lia].
      exists (r :: rs). split; [simpl; rewrite <- app_assoc; reflexivity|].
      intros out Ho. destruct (Hout out Ho) as (sub & -> & Hsub & Hlen).
      exists sub. split; [reflexivity|].
      split.
      * apply (@subseq_skipn sub _ (Z.to_nat skip)).
        rewrite skipn_skipn.
        replace (Z.to_nat skip + Z.to_nat i)%nat with (Z.to_nat (i + skip)) by lia.
        exact Hsub.
      * simpl List.length. lia.
Qed.

(** X1. The filter always returns.  It never adds, changes or reorders bytes:
    its output is the buffer with some bytes left out.  All it does to the
    world is write to the PTY; it makes no sizing call.  Every answer it
    writes has cost at least three bytes of the buffer, so output length plus
    three times the number of answers never exceeds the length of the
    buffer. *)
Theorem filter_only_removes_bytes (t : Terminal) (data : bytes) (w : World) :
  exists out rs,
    handleTerminalQueries t data w = (Some out, w ++ map EvWriteString rs)
    /\ subseq out data
    /\ len out + 3 * Z.of_nat (List.length rs) <= len data
    /\ writes (w ++ map EvWriteString rs) = writes w ++ rs
    /\ sizings (w ++ map EvWriteString rs) = sizings w.
Proof.
  destruct (handleTerminalQueries_returns t data w) as (out & w' & Hret).
  pose proof Hret as Hinv.
  unfold handleTerminalQueries in Hinv.
  apply scan_invariant in Hinv as (rs & -> & Hout); [|pose proof (len_nonneg data); lia].
  destruct (Hout out eq_refl) as (sub & Hsub & Hseq & Hlen).
  simpl in Hsub, Hseq. subst sub.
  exists out, rs. split; [exact Hret|].
  split; [exact Hseq|].
  split; [lia|].
  split.
  - rewrite writes_app, writes_map; reflexivity.
  - rewrite sizings_app, sizings_map, app_nil_r; reflexivity.
Qed.

(** X2. A match is never reported without an answer and never reaches past
    the buffer: at any position, either nothing is recognised, the result is
    0 and the world is as before, or the result is a length of at least 3
    that ends within the buffer and exactly one write has been added. *)
Theorem query_match_stays_in_buffer (t : Terminal) (data : bytes) (i skip : Z)
    (w w' : World) :
  0 <= i ->
  tryHandleQuery t data i w = (skip, w') ->
  (skip = 0 /\ w' = w)
  \/ (3 <= skip /\ i + skip <= len data /\ exists r, w' = w ++ [EvWriteString r]).
Proof. apply tryHandleQuery_result. Qed.

Lemma query_match_stays_in_buffer_witness :
  let data := bytes_of "ab" ++ [ESC; "["%byte; ">"%byte; "0"%byte; "c"%byte] in
  tryHandleQuery default_session data 2 [] = (5, [EvWriteString DA2_response])
  /\ 2 + 5 <= len data.
Proof.
  intros data.
  destruct (@query_match_stays_in_buffer default_session data 2 5 []
              [EvWriteString DA2_response]) as [[H _] | (_ & H & _)].
  - lia.
  - reflexivity.
  - discriminate H.
  - split; [reflexivity | exact H].
Defined.

(** X3. The identity property: a buffer without escape character is returned
    as it is and nothing is written. *)
Theorem filter_is_identity_on_plain_text (t : Terminal) (data : bytes) (w : World) :
  Forall plain data -> handleTerminalQueries t data w = (Some data, w).
Proof. apply handle_plain. Qed.

Lemma filter_is_identity_on_plain_text_witness :
  handleTerminalQueries default_session (bytes_of "hello [c") []
  = (Some (bytes_of "hello [c"), []).
Proof.
  apply filter_is_identity_on_plain_text.
  repeat constructor; discriminate.
Defined.

(** X4. A buffer of fewer than three bytes is never altered and never
    answered, whatever its bytes: a query that a read has cut after its first
    or second byte goes to the model as ordinary bytes. *)
Theorem short_buffer_passes_through (t : Terminal) (data : bytes) (w : World) :
  (List.length data <= 2)%nat ->
  handleTerminalQueries t data w = (Some data, w).
Proof.
  intros Hlen.
  destruct data as [|a [|b [|c data]]]; simpl in Hlen; try lia.
  - reflexivity.
  - rewrite handle_cons_pass by (right; left; reflexivity). reflexivity.
  - rewrite handle_cons_pass
      by (right; right; exists 0; split; [reflexivity | lia]).
    rewrite handle_cons_pass by (right; left; reflexivity). reflexivity.
Qed.

(** The query ESC [ c is answered when it arrives in one read and not when
    the read ends after ESC [. *)
Lemma short_buffer_passes_through_witness :
  handleTerminalQueries default_session [ESC; "["%byte] [] = (Some [ESC; "["%byte], [])
  /\ handleTerminalQueries default_session ["c"%byte] [] = (Some ["c"%byte], [])
  /\ handleTerminalQueries default_session [ESC; "["%byte; "c"%byte] []
     = (Some [], [EvWriteString DA1_response]).
Proof.
  split; [|split].
  - apply short_buffer_passes_through; simpl; lia.
  - apply short_buffer_passes_through; simpl; lia.
  - reflexivity.
Defined.

(** Recognition of a fixed CSI query standing at the head of a buffer. *)
Ltac recognise_csi :=
  match goal with
  | |- tryHandleQuery _ (?q ++ ?post) 0 _ = _ =>
      let k := eval compute in (len q) in
      assert (Hl : len (q ++ post) = k + len post) by (rewrite len_app; reflexivity);
      pose proof (len_nonneg post);
      unfold tryHandleQuery, tryHandleCSIQuery, tryHandleXTWINOPS, bind;
      rewrite Hl; zcases; try lia; reflexivity
  end.

Lemma device_attributes_recognised (t : Terminal) (q r post : bytes) (w : World) :
  In (q, r) device_attributes_table ->
  tryHandleQuery t (q ++ post) 0 w = (len q, w ++ [EvWriteString r])
  /\ 1 < len (q ++ post) /\ at_ (q ++ post) 0 = ESC /\ q <> [].
Proof.
  intros Hin.
  assert (Hhead : 1 < len (q ++ post) /\ at_ (q ++ post) 0 = ESC /\ q <> []).
  { pose proof (len_nonneg post).
    simpl in Hin; destruct Hin as [[= <- <-] | [[= <- <-] | [[= <- <-] | [[= <- <-] | []]]]];
      (split; [cbn [app]; rewrite !len_cons; lia|]); (split; [reflexivity | discriminate]). }
  split; [|exact Hhead].
  simpl in Hin; destruct Hin as [[= <- <-] | [[= <- <-] | [[= <- <-] | [[= <- <-] | []]]]];
    recognise_csi.
Qed.

Lemma size_in_chars_recognised (t : Terminal) (q r post : bytes) (w : World) :
  In (q, r) (size_in_chars_table t) ->
  tryHandleQuery t (q ++ post) 0 w = (len q, w ++ [EvWriteString r])
  /\ 1 < len (q ++ post) /\ at_ (q ++ post) 0 = ESC /\ q <> [].
Proof.
  intros Hin.
  assert (Hhead : 1 < len (q ++ post) /\ at_ (q ++ post) 0 = ESC /\ q <> []).
  { pose proof (len_nonneg post).
    simpl in Hin; destruct Hin as [[= <- <-] | [[= <- <-] | []]];
      (split; [cbn [app]; rewrite !len_cons; lia|]); (split; [reflexivity | discriminate]). }
  split; [|exact Hhead].
  simpl in Hin; destruct Hin as [[= <- <-] | [[= <- <-] | []]]; recognise_csi.
Qed.

(** A query recognised after plain text: the text stays, the query goes, the
    answer is written, and the rest is filtered on its own. *)
Lemma handle_recognised (t : Terminal) (pre q r post : bytes) (w : World) :
  tryHandleQuery t (q ++ post) 0 w = (len q, w ++ [EvWriteString r])
  /\ 1 < len (q ++ post) /\ at_ (q ++ post) 0 = ESC /\ q <> [] ->
  Forall plain pre ->
  handleTerminalQueries t (pre ++ q ++ post) w
  = map_out (app pre) (handleTerminalQueries t post (w ++ [EvWriteString r])).
Proof.
  intros (Htry & Hlen & Hesc & Hq) Hpre.
  rewrite handle_plain_prefix by exact Hpre.
  f_equal. apply handle_skip; assumption.
Qed.

(** X5. The Device Attributes queries ESC [ c, ESC [ 0 c (primary) and
    ESC [ > c, ESC [ > 0 c (secondary), standing after plain text, are left
    out of the output and answered with ESC [ ? 6 2 ; 4 c and
    ESC [ > 1 ; 0 ; 0 c; the answer is written before anything the bytes
    after the query cause, and those bytes are filtered as a buffer of their
    own.  Between plain texts A and B the query leaves A followed by B. *)
Theorem device_attributes_answered_in_place
    (t : Terminal) (pre q r post : bytes) (w : World) :
  In (q, r) device_attributes_table ->
  Forall plain pre ->
  handleTerminalQueries t (pre ++ q ++ post) w
    = map_out (app pre) (handleTerminalQueries t post (w ++ [EvWriteString r]))
  /\ (Forall plain post ->
      handleTerminalQueries t (pre ++ q ++ post) w
        = (Some (pre ++ post), w ++ [EvWriteString r])).
Proof.
  intros Hin Hpre.
  pose proof (@handle_recognised t pre q r post w
                (@device_attributes_recognised t q r post w Hin) Hpre) as H.
  split; [exact H|].
  intros Hpost. rewrite H, handle_plain by exact Hpost. reflexivity.
Qed.

(** The text A, the query ESC [ > c and the text B are filtered to AB. *)
Lemma device_attributes_answered_in_place_witness :
  handleTerminalQueries default_session
    (bytes_of "A" ++ [ESC; "["%byte; ">"%byte; "c"%byte] ++ bytes_of "B") []
  = (Some (bytes_of "AB"), [EvWriteString (ESC :: bytes_of "[>1;0;0c")]).
Proof.
  apply (@device_attributes_answered_in_place default_session (bytes_of "A")
           [ESC; "["%byte; ">"%byte; "c"%byte] DA2_response (bytes_of "B") []).
  - right; right; left; reflexivity.
  - repeat constructor; discriminate.
  - repeat constructor; discriminate.
Defined.

(** X6. The queries ESC [ 1 8 t and ESC [ 1 9 t, standing after plain text,
    are left out of the output and answered with ESC [ 8 ; rows ; cols t and
    ESC [ 9 ; rows ; cols t, rows and cols being those recorded in the
    session, in decimal. *)
Theorem size_in_chars_answered_in_place
    (t : Terminal) (pre q r post : bytes) (w : World) :
  In (q, r) (size_in_chars_table t) ->
  Forall plain pre ->
  handleTerminalQueries t (pre ++ q ++ post) w
    = map_out (app pre) (handleTerminalQueries t post (w ++ [EvWriteString r]))
  /\ (Forall plain post ->
      handleTerminalQueries t (pre ++ q ++ post) w
        = (Some (pre ++ post), w ++ [EvWriteString r])).
Proof.
  intros Hin Hpre.
  pose proof (@handle_recognised t pre q r post w
                (@size_in_chars_recognised t q r post w Hin) Hpre) as H.
  split; [exact H|].
  intros Hpost. rewrite H, handle_plain by exact Hpost. reflexivity.
Qed.

(** A session resized to 132 x 43 answers ESC [ 1 8 t with ESC[8;43;132t. *)
Lemma size_in_chars_answered_in_place_witness :
  let t := snd (fst (Resize os_ok default_session 132 43 [])) in
  handleTerminalQueries t [ESC; "["%byte; "1"%byte; "8"%byte; "t"%byte] []
  = (Some [], [EvWriteString (ESC :: bytes_of "[8;43;132t")]).
Proof.
  intros t.
  apply (@size_in_chars_answered_in_place t []
           [ESC; "["%byte; "1"%byte; "8"%byte; "t"%byte]
           (ESC :: bytes_of "[8;43;132t") [] []).
  - left; reflexivity.
  - constructor.
  - constructor.
Defined.






Lemma nth_skipn_shift (l : bytes) (k i : nat) :
  nth i (skipn k l) x00 = nth (k + i) l x00.
Proof.
  revert l; induction k as [|k IH]; intros l; [reflexivity|].
  destruct l as [|b l]; simpl; [destruct i; reflexivity | apply IH].
Qed.

Lemma terminator_end_points (rest : bytes) (n : nat) :
  terminator_end rest = Some n ->
  nth (n - 1) rest x00 = BEL
  \/ ((2 <= n)%nat /\ nth (n - 2) rest x00 = ESC /\ nth (n - 1) rest x00 = "\"%byte).
Proof.
  revert n; induction rest as [|b rest IH]; intros n; cbn [terminator_end]; [discriminate|].
  destruct (Byte.eqb b BEL) eqn:Hbel.
  { intros [= <-]. left. apply Byte.byte_dec_bl in Hbel. exact Hbel. }
  destruct (Byte.eqb b ESC && _) eqn:Hst.
  { intros [= <-]. right. apply andb_true_iff in Hst as [Hesc Hnext].
    apply Byte.byte_dec_bl in Hesc.
    destruct rest as [|c rest]; [discriminate|].
    apply Byte.byte_dec_bl in Hnext. auto. }
  destruct (terminator_end rest) as [k|] eqn:E; [|discriminate].
  intros [= <-].
  pose proof (terminator_end_range _ E) as Hk.
  destruct (IH k eq_refl) as [H | (H2 & Hesc & Hbs)].
  - left. replace (S k - 1)%nat with (S (k - 1)) by lia. exact H.
  - right. split; [lia|].
    replace (S k - 2)%nat with (S (k - 2)) by lia.
    replace (S k - 1)%nat with (S (k - 1)) by lia. auto.
Qed.

Lemma terminator_end_complete (rest : bytes) :
  has_terminator rest -> exists k, terminator_end rest = Some k.
Proof.
  induction rest as [|b rest IH]; intros Hterm.
  - destruct Hterm as [[] | (x & y & H)]. destruct x; discriminate.
  - cbn [terminator_end].
    destruct (Byte.eqb b BEL) eqn:Hbel; [eauto|].
    destruct (Byte.eqb b ESC && _) eqn:Hst; [eauto|].
    destruct IH as (k & ->); [|simpl; eauto].
    destruct Hterm as [[Hb | Hin] | (x & y & H)].
    + subst b. discriminate Hbel.
    + left; exact Hin.
    + destruct x as [|b' x]; simpl in H; inversion H; subst.
      * discriminate Hst.
      * right; eauto.
Qed.

(** X8. [findOSCEnd] returns -1 exactly when neither BEL nor ESC \ occurs in
    the buffer from [offset] on.  Otherwise it returns a position after
    [offset] and within the buffer, and the bytes just before that position
    are a terminator: BEL, or ESC \ lying wholly at or after [offset]. *)
Theorem findOSCEnd_finds_a_terminator (t : Terminal) (data : bytes) (offset : Z) :
  0 <= offset ->
  let e := findOSCEnd t data offset in
  (e = -1 <-> ~ has_terminator (skipn (Z.to_nat offset) data))
  /\ (e <> -1 ->
      offset < e <= len data
      /\ (at_ data (e - 1) = BEL
          \/ (offset <= e - 2 /\ at_ data (e - 2) = ESC /\ at_ data (e - 1) = "\"%byte))).
Proof.
  intros Hoff e; unfold e, findOSCEnd.
  rewrite findOSCEnd_from_spec.
  destruct (terminator_end (skipn (Z.to_nat offset) data)) as [n|] eqn:E.
  - pose proof (terminator_end_range _ E) as Hn.
    rewrite length_skipn in Hn.
    split.
    + split; [lia|]. intros Hno. exfalso. apply Hno.
      apply (terminator_end_some _ E).
    + intros _. split; [unfold len; lia|].
      unfold at_.
      destruct (terminator_end_points _ E) as [H | (H2 & Hesc & Hbs)];
        rewrite !nth_skipn_shift in *.
      * left. replace (Z.to_nat (offset + Z.of_nat n - 1))
          with (Z.to_nat offset + (n - 1))%nat by lia. exact H.
      * right. split; [lia|].
        replace (Z.to_nat (offset + Z.of_nat n - 2))
          with (Z.to_nat offset + (n - 2))%nat by lia.
        replace (Z.to_nat (offset + Z.of_nat n - 1))
          with (Z.to_nat offset + (n - 1))%nat by lia.
        auto.
  - split; [|intros H; contradiction].
    split; [intros _|reflexivity].
    intros Hterm. apply terminator_end_complete in Hterm as (k & Hk). congruence.
Qed.

(** In "x", ESC \, "y" the search from 0 ends after the ESC \. *)
Lemma findOSCEnd_finds_a_terminator_witness :
  let data := bytes_of "x" ++ [ESC; "\"%byte] ++ bytes_of "y" in
  findOSCEnd default_session data 0 = 3
  /\ 0 < findOSCEnd default_session data 0 <= len data.
Proof.
  intros data.
  destruct (@findOSCEnd_finds_a_terminator default_session data 0) as [_ H]; [lia|].
  split; [reflexivity|].
  apply H. discriminate.
Defined.

(** ** Creation and resize, all outcomes *)

(** X9. The outcomes of [Resize].  It returns the rows error exactly when rows
    is negative or above 65535, whatever cols is; the cols error exactly when
    rows is within bounds and cols is not; the error of the OS exactly when
    both are within bounds and the sizing call fails; and nil otherwise.
    When it rejects a dimension it has made no call to the OS; otherwise it
    has made exactly one sizing call, with rows and cols untruncated. *)
Theorem Resize_outcomes (os : OS) (t : Terminal) (c r : Z) (w : World) :
  let err := fst (fst (Resize os t c r w)) in
  let w' := snd (Resize os t c r w) in
  (err = Some ErrRows <-> ~ valid_dimension r)
  /\ (err = Some ErrCols <-> valid_dimension r /\ ~ valid_dimension c)
  /\ (forall e, err = Some (ErrOS e)
        <-> valid_dimension r /\ valid_dimension c
            /\ setsize_error os w (mkWinsize r c) = Some e)
  /\ (err = None
        <-> valid_dimension r /\ valid_dimension c
            /\ setsize_error os w (mkWinsize r c) = None)
  /\ (~ valid_dimension r \/ ~ valid_dimension c -> w' = w)
  /\ (valid_dimension r -> valid_dimension c -> w' = w ++ [EvSetsize (mkWinsize r c)]).
Proof.
  unfold valid_dimension, maxTerminalDimension.
  unfold Resize, bind, pty_Setsize, ret, maxTerminalDimension.
  destruct (Z.ltb_spec r 0); cbn [orb fst snd].
  { repeat split; intros; try discriminate; try lia; try (exfalso; lia);
      try solve [intuition lia]. }
  rewrite (Z.gtb_ltb r). destruct (Z.ltb_spec 65535 r); cbn [orb fst snd].
  { repeat split; intros; try discriminate; try lia; try (exfalso; lia);
      try solve [intuition lia]. }
  destruct (Z.ltb_spec c 0); cbn [orb fst snd].
  { repeat split; intros; try discriminate; try lia; try (exfalso; lia);
      try solve [intuition lia]. }
  rewrite (Z.gtb_ltb c). destruct (Z.ltb_spec 65535 c); cbn [orb fst snd].
  { repeat split; intros; try discriminate; try lia; try (exfalso; lia);
      try solve [intuition lia]. }
  assert (Hr : uint16 r = r) by (apply uint16_valid; unfold valid_dimension, maxTerminalDimension; lia).
  assert (Hc : uint16 c = c) by (apply uint16_valid; unfold valid_dimension, maxTerminalDimension; lia).
  rewrite Hr, Hc.
  destruct (setsize_error os w (mkWinsize r c)) as [e0|]; cbn [fst snd];
    repeat split; intros; try discriminate; try lia; try congruence;
    try (exfalso; lia); intuition (try discriminate; try lia; try congruence).
Qed.

(** X10. What [New] has done when it succeeds.  The recorded size is the
    requested one with 24 rows or 80 columns in place of a zero, so both are
    between 1 and 65535; the model is a fresh one of that size with the PTY
    as its writer, whose snapshot is the blank grid; the child was started by
    the one call made to the OS, with that size untruncated; and
    TERM=xterm-256color is the last entry of the child's environment, after
    the process environment and the entries given in the options. *)
Theorem New_postconditions (os : OS) (command : string) (args : list string)
    (opts : Options) (w : World) (t : Terminal) (w' : World) :
  New os command args opts w = (Ok t, w') ->
  let R := if Rows opts =? 0 then 24 else Rows opts in
  let C := if Cols opts =? 0 then 80 else Cols opts in
  rows t = R /\ cols t = C
  /\ 1 <= rows t <= 65535 /\ 1 <= cols t <= 65535
  /\ vt t = vt10x_New [WithSize C R; WithWriter PtyWriter]
  /\ vt_writer (vt t) = PtyWriter
  /\ Screenshot t = render (blank_grid C R)
  /\ w' = w ++ [EvStartWithSize command args (mkWinsize R C)]
  /\ cmd t = mkCmd command args ((os_Environ os ++ Env opts) ++ ["TERM=xterm-256color"%string])
  /\ last (cmd_env (cmd t)) EmptyString = "TERM=xterm-256color"%string.
Proof.
  unfold New, bind, pty_StartWithSize, ret, maxTerminalDimension.
  destruct opts as [R0 C0 E]; cbn [Rows Cols Env]; cbv zeta.
  intros H.
  destruct (Z.eqb_spec R0 0); cbn [Rows Cols Env] in H;
    destruct (Z.eqb_spec C0 0); cbn [Rows Cols Env] in H;
    revert H; zcases; cbn [orb cmd_path cmd_args]; try discriminate; cbv beta;
    repeat rewrite uint16_valid by (unfold valid_dimension, maxTerminalDimension; lia);
    (destruct (start_error os w command args _); [discriminate|]);
    intros [= <- <-]; cbn [rows cols vt cmd cmd_env];
    repeat split; try lia; try reflexivity; apply last_last.
Qed.

(** Creation with zero rows and 120 columns gives a session of 24 x 120. *)
Lemma New_postconditions_witness :
  exists t w',
    New os_ok "sh" [] (mkOptions 0 120 ["TERM=dumb"%string]) [] = (Ok t, w')
    /\ rows t = 24 /\ cols t = 120
    /\ w' = [EvStartWithSize "sh" [] (mkWinsize 24 120)]
    /\ last (cmd_env (cmd t)) EmptyString = "TERM=xterm-256color"%string.
Proof.
  destruct (New os_ok "sh" [] (mkOptions 0 120 ["TERM=dumb"%string]) []) as [r w'] eqn:H.
  destruct r as [t|e]; [|discriminate H].
  exists t, w'. split; [reflexivity|].
  destruct (New_postconditions _ _ _ _ _ H) as (Hr & Hc & _ & _ & _ & _ & _ & Hw & _ & Hl).
  repeat split; assumption.
Defined.

(** X11. The failures of [New].  It returns the rows error exactly when the
    requested rows are negative or above 65535, the cols error exactly when
    rows are within bounds and cols are not, and the wrapped error of the OS
    exactly when both are within bounds and starting the child on the PTY
    fails.  A rejected dimension leaves the world untouched: no child is
    started. *)
Theorem New_failures (os : OS) (command : string) (args : list string)
    (opts : Options) (w : World) :
  let R := if Rows opts =? 0 then 24 else Rows opts in
  let C := if Cols opts =? 0 then 80 else Cols opts in
  let res := fst (New os command args opts w) in
  let w' := snd (New os command args opts w) in
  (res = Err ErrRows <-> ~ valid_dimension (Rows opts))
  /\ (res = Err ErrCols <-> valid_dimension (Rows opts) /\ ~ valid_dimension (Cols opts))
  /\ (forall e, res = Err (ErrStartPTY e)
        <-> valid_dimension (Rows opts) /\ valid_dimension (Cols opts)
            /\ start_error os w command args (mkWinsize R C) = Some e)
  /\ (~ valid_dimension (Rows opts) \/ ~ valid_dimension (Cols opts) -> w' = w).
Proof.
  unfold valid_dimension, maxTerminalDimension.
  unfold New, bind, pty_StartWithSize, ret, maxTerminalDimension.
  destruct opts as [R0 C0 E]; cbn [Rows Cols Env]; cbv zeta.
  destruct (Z.eqb_spec R0 0); cbn [Rows Cols Env];
    destruct (Z.eqb_spec C0 0); cbn [Rows Cols Env];
    zcases; cbn [orb cmd_path cmd_args fst snd]; cbv beta;
    try (repeat split; intros; try discriminate; try lia; try (exfalso; lia);
         solve [intuition lia]);
    repeat rewrite uint16_valid by (unfold valid_dimension, maxTerminalDimension; lia);
    (destruct (start_error os w command args _) as [e1|]; cbn [fst snd];
     repeat split; intros; try discriminate; try lia; try congruence;
     try (exfalso; lia); try solve [intuition (try discriminate; try lia; try congruence)]).
Qed.



(** ** The polling waits, the other way round *)

(** X13. [containsText] holds exactly when the text is not empty and occurs
    in the screen; in particular it fails for the empty text on any screen
    and for any text on the empty screen. *)
Theorem containsText_is_nonempty_occurrence (screen target : string) :
  (containsText screen target = true
   <-> target <> EmptyString /\ substring_of target screen)
  /\ containsText screen "" = false
  /\ containsText "" target = false.
Proof.
  split; [apply containsText_spec|].
  split; [reflexivity|].
  unfold containsText. destruct (negb (String.eqb target "")); reflexivity.
Qed.

Lemma text_loop_success (polls : list Poll) (deadline : Z) (target : string) :
  text_loop polls deadline target = Returned None ->
  exists seen p after,
    polls = seen ++ p :: after
    /\ Forall (in_time deadline) (seen ++ [p])
    /\ Forall (fun q => ~ substring_of target (text q)) seen
    /\ target <> EmptyString
    /\ substring_of target (text p).
Proof.
  unfold in_time.
  induction polls as [|q polls IH]; simpl; [discriminate|].
  destruct (Z.ltb_spec (at_check q) deadline) as [Hq|]; [|discriminate].
  destruct (containsText (Screenshot (session q)) target) eqn:Hc.
  - intros _. apply containsText_spec in Hc as [Hne Hsub].
    exists [], q, polls. repeat split; auto; repeat constructor; auto.
  - intros H. destruct (IH H) as (seen & p & after & -> & Hin & Hnot & Hne & Hsub).
    exists (q :: seen), p, after. repeat split; auto.
    + simpl; constructor; assumption.
    + constructor; [|exact Hnot].
      intros Hsub'. assert (containsText (Screenshot (session q)) target = true)
        by (apply containsText_spec; auto).
      congruence.
Qed.

(** X14. [WaitForText] returns success only on a match: it returns nil
    exactly when the target is not empty and some poll made before the
    deadline, with every poll before it made before the deadline too, found a
    screen that contains the target; and then no earlier poll had found
    one. *)
Theorem WaitForText_succeeds_exactly_on_a_match
    (start timeout : Z) (polls : list Poll) (target : string) :
  let deadline := start + timeout in
  (WaitForText start polls target timeout = Returned None
   <-> target <> EmptyString
       /\ exists seen p after,
           polls = seen ++ p :: after
           /\ Forall (in_time deadline) (seen ++ [p])
           /\ substring_of target (text p))
  /\ (WaitForText start polls target timeout = Returned None ->
      exists seen p after,
        polls = seen ++ p :: after
        /\ Forall (fun q => ~ substring_of target (text q)) seen
        /\ substring_of target (text p)).
Proof.
  intros deadline; unfold WaitForText; fold deadline.
  split; [split|].
  - intros H. apply text_loop_success in H as (seen & p & after & Heq & Hin & _ & Hne & Hsub).
    split; [exact Hne|]. exists seen, p, after. auto.
  - intros (Hne & seen & p & after & -> & Hin & Hsub).
    apply text_loop_found; assumption.
  - intros H. apply text_loop_success in H as (seen & p & after & Heq & _ & Hnot & _ & Hsub).
    exists seen, p, after. auto.
Qed.








(** ** Sending keys *)

Lemma split_on_cons (sep : ascii) (s : string) :
  exists l ls, split_on sep s = l :: ls.
Proof.
  destruct s as [|c s]; simpl; [eauto|].
  destruct (Ascii.eqb c sep); [eauto|].
  destruct (split_on sep s); eauto.
Qed.

Lemma split_on_app (sep : ascii) (a b : string) :
  split_on sep (a ++ String sep b) = split_on sep a ++ split_on sep b.
Proof.
  induction a as [|c a IH]; simpl.
  - rewrite Ascii.eqb_refl. reflexivity.
  - destruct (Ascii.eqb c sep); [rewrite IH; reflexivity|].
    rewrite IH.
    destruct (split_on_cons sep a) as (l & ls & ->). reflexivity.
Qed.

Lemma sendKeys_parts_app (write_error : World -> bytes -> option OSError)
    (unicode_ToLower : string -> string) (t : Terminal) (p1 p2 : list string) (w : World) :
  sendKeys_parts write_error unicode_ToLower t (p1 ++ p2) w
  = let (err, w1) := sendKeys_parts write_error unicode_ToLower t p1 w in
    match err with
    | Some e => (Some e, w1)
    | None => sendKeys_parts write_error unicode_ToLower t p2 w1
    end.
Proof.
  revert w; induction p1 as [|part p1 IH]; intros w; simpl; [reflexivity|].
  destruct (String.eqb part ""); [apply IH|].
  unfold bind, SendKeys.
  destruct (write_error w _); simpl; [reflexivity | apply IH].
Qed.

(** X17. Sending keys composes over the space: sending [a], a space and [b]
    is sending [a] and then, if every write of [a] went through, sending [b];
    if a write of [a] failed, its error is returned and nothing of [b] is
    written.  Sending the empty specification writes nothing, so spaces at
    either end and repeated spaces make no difference. *)
Theorem sendKeys_composes (write_error : World -> bytes -> option OSError)
    (unicode_ToLower : string -> string) (t : Terminal) (a b : string)
    (inputDelay : Z) (w : World) :
  sendKeys write_error unicode_ToLower t (a ++ " " ++ b) inputDelay w
  = (let (err, w1) := sendKeys write_error unicode_ToLower t a inputDelay w in
     match err with
     | Some e => (Some e, w1)
     | None => sendKeys write_error unicode_ToLower t b inputDelay w1
     end)
  /\ sendKeys write_error unicode_ToLower t "" inputDelay w = (None, w)
  /\ sendKeys write_error unicode_ToLower t (" " ++ b) inputDelay w
     = sendKeys write_error unicode_ToLower t b inputDelay w.
Proof.
  unfold sendKeys.
  assert (H : forall a b w,
             sendKeys_parts write_error unicode_ToLower t
               (split_on " " (a ++ " " ++ b)) w
             = (let (err, w1) :=
                  sendKeys_parts write_error unicode_ToLower t (split_on " " a) w in
                match err with
                | Some e => (Some e, w1)
                | None => sendKeys_parts write_error unicode_ToLower t (split_on " " b) w1
                end)).
  { intros a0 b0 w0.
    change (a0 ++ " " ++ b0)%string with (a0 ++ String " " b0)%string.
    rewrite split_on_app. apply sendKeys_parts_app. }
  split; [apply H|]. split; [reflexivity|].
  change (" " ++ b)%string with ("" ++ " " ++ b)%string.
  rewrite H. reflexivity.
Qed.

Lemma sendKeys_parts_ok (write_error : World -> bytes -> option OSError)
    (unicode_ToLower : string -> string) (t : Terminal) (parts : list string) (w : World) :
  (forall w' k, write_error w' k = None) ->
  sendKeys_parts write_error unicode_ToLower t parts w
  = (None,
     w ++ map (fun part => EvWriteString (bytes_of (parseKey unicode_ToLower part)))
            (filter (fun part => negb (String.eqb part "")) parts)).
Proof.
  intros Hok. revert w; induction parts as [|part parts IH]; intros w; simpl.
  - rewrite app_nil_r; reflexivity.
  - destruct (String.eqb part ""); simpl; [apply IH|].
    unfold bind, SendKeys. rewrite Hok. simpl.
    rewrite IH, <- app_assoc. reflexivity.
Qed.

(** X18. While no write fails, [sendKeys] returns nil and has made exactly one
    write for every non-empty part of the specification between spaces, in
    their order, each of the bytes [parseKey] gives for the part; the empty
    parts that repeated spaces leave write nothing. *)
Theorem sendKeys_writes_each_key (write_error : World -> bytes -> option OSError)
    (unicode_ToLower : string -> string) (t : Terminal) (keys : string)
    (inputDelay : Z) (w : World) :
  (forall w' k, write_error w' k = None) ->
  sendKeys write_error unicode_ToLower t keys inputDelay w
  = (None,
     w ++ map (fun part => EvWriteString (bytes_of (parseKey unicode_ToLower part)))
            (filter (fun part => negb (String.eqb part "")) (split_on " " keys))).
Proof. intros Hok. apply sendKeys_parts_ok; exact Hok. Qed.

(** "down", two spaces, "Enter", "x": the arrow, the carriage return and the
    letter are written; with a PTY that fails from its second write on, the
    second error ends the sending. *)
Lemma sendKeys_writes_each_key_witness :
  sendKeys write_ok (fun s => s) default_session "down  Enter x" 0 []
  = (None, [EvWriteString [x1b; "["%byte; "B"%byte];
            EvWriteString [x0d];
            EvWriteString ["x"%byte]])
  /\ sendKeys write_once (fun s => s) default_session "down  Enter x" 0 []
     = (Some (ErrOS (Errno 5)),
        [EvWriteString [x1b; "["%byte; "B"%byte]; EvWriteString [x0d]]).
Proof.
  split; [|reflexivity].
  apply (@sendKeys_writes_each_key write_ok (fun s => s) default_session
           "down  Enter x" 0 []).
  reflexivity.
Defined.

Lemma lower_ascii_spec (c : ascii) :
  (nat_of_ascii c < 128)%nat ->
  (nat_of_ascii (lower_ascii c) < 128)%nat /\ lower_ascii (lower_ascii c) = lower_ascii c.
Proof.
  intros Hc. unfold lower_ascii.
  destruct ((65 <=? nat_of_ascii c)%nat && (nat_of_ascii c <=? 90)%nat) eqn:Hup.
  - apply andb_true_iff in Hup as [H1 H2].
    apply Nat.leb_le in H1, H2.
    assert (Hn : nat_of_ascii (ascii_of_nat (nat_of_ascii c + 32)) = (nat_of_ascii c + 32)%nat)
      by (apply nat_ascii_embedding; lia).
    rewrite Hn. split; [lia|].
    replace ((65 <=? nat_of_ascii c + 32)%nat && (nat_of_ascii c + 32 <=? 90)%nat) with false;
      [reflexivity|].
    symmetry. apply andb_false_iff. right. apply Nat.leb_gt. lia.
  - rewrite Hup. auto.
Qed.

Lemma map_lower_spec (s : string) :
  isASCII s = true ->
  isASCII (map_string lower_ascii s) = true
  /\ map_string lower_ascii (map_string lower_ascii s) = map_string lower_ascii s.
Proof.
  induction s as [|c s IH]; simpl; [auto|].
  intros H. apply andb_true_iff in H as [Hc Hs].
  apply Nat.ltb_lt in Hc.
  destruct (lower_ascii_spec c Hc) as [H1 H2].
  destruct (IH Hs) as [H3 H4].
  split.
  - apply andb_true_iff; split; [apply Nat.ltb_lt; exact H1 | exact H3].
  - rewrite H2, H4. reflexivity.
Qed.

(** X19. Key names are matched without regard to case, and what is not a key
    name is sent as it is.  For a specification of ASCII bytes: if its
    lower-case form is a key name, [parseKey] gives the key of that name, as
    it does for the lower-case form itself; otherwise it gives the
    specification unchanged, case included.  The Unicode mapping plays no
    part. *)
Theorem parseKey_ignores_case (unicode_ToLower : string -> string) (s : string) :
  isASCII s = true ->
  let name := map_string lower_ascii s in
  (forall k, lookup_key name key_names = Some k ->
             parseKey unicode_ToLower s = k /\ parseKey unicode_ToLower name = k)
  /\ (lookup_key name key_names = None -> parseKey unicode_ToLower s = s)
  /\ (forall other, parseKey other s = parseKey unicode_ToLower s).
Proof.
  intros Hs name. subst name.
  destruct (map_lower_spec s Hs) as [Hn Hidem].
  unfold parseKey, ToLower. rewrite Hs, Hn, Hidem.
  split; [|split].
  - intros k Hk. rewrite Hk. auto.
  - intros Hk. rewrite Hk. reflexivity.
  - reflexivity.
Qed.

(** "Ctrl-C" is the key ctrl-c; "ctrl-m", which the switch does not list, and
    "Hello" are sent letter by letter. *)
Lemma parseKey_ignores_case_witness :
  parseKey (fun s => s) "Ctrl-C" = KeyCtrlC
  /\ parseKey (fun s => s) "ctrl-m" = "ctrl-m"%string
  /\ parseKey (fun s => s) "Hello" = "Hello"%string.
Proof.
  destruct (@parseKey_ignores_case (fun s => s) "Ctrl-C" eq_refl) as (H1 & _ & _).
  destruct (@parseKey_ignores_case (fun s => s) "ctrl-m" eq_refl) as (_ & H2 & _).
  destruct (@parseKey_ignores_case (fun s => s) "Hello" eq_refl) as (_ & H3 & _).
  split; [apply (H1 KeyCtrlC); reflexivity|].
  split; [apply H2 | apply H3]; reflexivity.
Defined.

(** ** Trimming the captured screen *)

Lemma string_app_nil_r (s : string) : (s ++ "")%string = s.
Proof. induction s as [|c s IH]; simpl; [|rewrite IH]; reflexivity. Qed.

Lemma string_app_assoc (a b c : string) : ((a ++ b) ++ c)%string = (a ++ b ++ c)%string.
Proof. induction a as [|x a IH]; simpl; [|rewrite IH]; reflexivity. Qed.

Lemma split_on_free (sep : ascii) (s : string) : Forall (free_of sep) (split_on sep s).
Proof.
  induction s as [|c s IH]; simpl.
  - repeat constructor.
  - destruct (Ascii.eqb_spec c sep) as [-> | Hne].
    + constructor; [exact I | exact IH].
    + destruct (split_on sep s) as [|l ls].
      * repeat constructor; assumption.
      * inversion IH; subst. constructor; [split; assumption | assumption].
Qed.

Lemma split_on_free_id (sep : ascii) (s : string) :
  free_of sep s -> split_on sep s = [s].
Proof.
  induction s as [|c s IH]; simpl; [reflexivity|].
  intros [Hc Hs].
  destruct (Ascii.eqb_spec c sep); [contradiction|].
  rewrite IH by exact Hs. reflexivity.
Qed.

Lemma Join_split_on (sep : ascii) (s : string) :
  Join (split_on sep s) (String sep EmptyString) = s.
Proof.
  induction s as [|c s IH]; simpl; [reflexivity|].
  destruct (Ascii.eqb_spec c sep) as [-> | Hne].
  - destruct (split_on_cons sep s) as (l & ls & Hs).
    rewrite Hs in *. simpl. f_equal. exact IH.
  - destruct (split_on_cons sep s) as (l & ls & Hs).
    rewrite Hs in *.
    destruct ls as [|l2 ls]; simpl in *; rewrite <- IH; reflexivity.
Qed.

Lemma split_on_Join (sep : ascii) (ls : list string) :
  ls <> [] ->
  Forall (free_of sep) ls ->
  split_on sep (Join ls (String sep EmptyString)) = ls.
Proof.
  induction ls as [|l ls IH]; intros Hne Hfree; [contradiction|].
  inversion Hfree; subst.
  destruct ls as [|l2 ls].
  - simpl. apply split_on_free_id; assumption.
  - change (Join (l :: l2 :: ls) (String sep EmptyString))
      with (l ++ String sep (Join (l2 :: ls) (String sep EmptyString)))%string.
    rewrite split_on_app, IH by (assumption || discriminate).
    rewrite split_on_free_id by assumption. reflexivity.
Qed.

Lemma Join_firstn_prefix (sep : string) (ls : list string) (k : nat) :
  exists rest, Join ls sep = (Join (firstn (S k) ls) sep ++ rest)%string.
Proof.
  revert k; induction ls as [|l ls IH]; intros k.
  - exists EmptyString. reflexivity.
  - destruct ls as [|l2 ls].
    + exists EmptyString. simpl. destruct k; simpl; rewrite string_app_nil_r; reflexivity.
    + destruct k as [|k].
      * exists (sep ++ Join (l2 :: ls) sep)%string. reflexivity.
      * destruct (IH k) as (rest & Hrest).
        exists rest.
        change (Join (l :: l2 :: ls) sep) with (l ++ sep ++ Join (l2 :: ls) sep)%string.
        rewrite Hrest.
        change (firstn (S (S k)) (l :: l2 :: ls)) with (l :: firstn (S k) (l2 :: ls)).
        change (firstn (S k) (l2 :: ls)) with (l2 :: firstn k ls).
        change (Join (l :: l2 :: firstn k ls) sep)
          with (l ++ sep ++ Join (l2 :: firstn k ls) sep)%string.
        rewrite !string_app_assoc. reflexivity.
Qed.

Lemma lastNonBlank_from_spec (TrimSpace : string -> string) (lines : list string) (n : nat) :
  (lastNonBlank_from TrimSpace lines n = -1
   /\ forall i, (i < n)%nat -> TrimSpace (nth i lines EmptyString) = EmptyString)
  \/ (exists j,
        lastNonBlank_from TrimSpace lines n = Z.of_nat j
        /\ (j < n)%nat
        /\ TrimSpace (nth j lines EmptyString) <> EmptyString
        /\ forall i, (j < i < n)%nat -> TrimSpace (nth i lines EmptyString) = EmptyString).
Proof.
  induction n as [|n IH]; simpl.
  - left. split; [reflexivity | intros i Hi; lia].
  - destruct (String.eqb_spec (TrimSpace (nth n lines EmptyString)) "") as [Hb | Hnb]; simpl.
    + destruct IH as [[Hk Hall] | (j & Hk & Hj & Hnb & Hall)].
      * left. split; [exact Hk|].
        intros i Hi. destruct (Nat.eq_dec i n) as [-> | Hne]; [exact Hb | apply Hall; lia].
      * right. exists j. split; [exact Hk|]. split; [lia|]. split; [exact Hnb|].
        intros i Hi. destruct (Nat.eq_dec i n) as [-> | Hne]; [exact Hb | apply Hall; lia].
    + right. exists n. split; [reflexivity|]. split; [lia|]. split; [exact Hnb|].
      intros i Hi; lia.
Qed.

Lemma lastNonBlank_from_ext (TrimSpace : string -> string) (l1 l2 : list string) (n : nat) :
  (forall i, (i < n)%nat -> nth i l1 EmptyString = nth i l2 EmptyString) ->
  lastNonBlank_from TrimSpace l1 n = lastNonBlank_from TrimSpace l2 n.
Proof.
  induction n as [|n IH]; intros H; simpl; [reflexivity|].
  rewrite (H n) by lia. rewrite IH by (intros i Hi; apply H; lia). reflexivity.
Qed.

Lemma Forall_skipn_nth (P : string -> Prop) (ls : list string) (k : nat) :
  (forall i, (k <= i < List.length ls)%nat -> P (nth i ls EmptyString)) ->
  Forall P (skipn k ls).
Proof.
  intros H. apply Forall_forall. intros x Hx.
  destruct (In_nth _ _ EmptyString Hx) as (i & Hi & <-).
  rewrite length_skipn in Hi. rewrite nth_skipn. apply H. lia.
Qed.

Lemma Forall_firstn_lines (P : string -> Prop) (ls : list string) (n : nat) :
  Forall P ls -> Forall P (firstn n ls).
Proof.
  intros H; revert n; induction H as [|l ls Hl Hls IH]; intros n.
  - rewrite firstn_nil; constructor.
  - destruct n as [|n]; simpl; constructor; auto.
Qed.

Lemma nth_pred_last (ls : list string) :
  nth (List.length ls - 1) ls EmptyString = last ls EmptyString.
Proof.
  induction ls as [|l ls IH]; [reflexivity|].
  destruct ls as [|l2 ls]; [reflexivity|].
  change (last (l :: l2 :: ls) EmptyString) with (last (l2 :: ls) EmptyString).
  rewrite <- IH. simpl. rewrite Nat.sub_0_r. reflexivity.
Qed.

Lemma last_firstn_nth (ls : list string) (j : nat) :
  (j < List.length ls)%nat ->
  last (firstn (S j) ls) EmptyString = nth j ls EmptyString.
Proof.
  revert j; induction ls as [|l ls IH]; intros j Hj; simpl in Hj; [lia|].
  destruct j as [|j]; [reflexivity|].
  change (firstn (S (S j)) (l :: ls)) with (l :: firstn (S j) ls).
  destruct ls as [|l2 ls]; [simpl in Hj; lia|].
  change (firstn (S j) (l2 :: ls)) with (l2 :: firstn j ls).
  change (last (l :: l2 :: firstn j ls) EmptyString)
    with (last (l2 :: firstn j ls) EmptyString).
  change (l2 :: firstn j ls) with (firstn (S j) (l2 :: ls)).
  rewrite IH by (simpl in *; lia). reflexivity.
Qed.

(** What [trimTrailingBlankLines] does to the lines of its argument. *)
Lemma trim_lines (TrimSpace : string -> string) (s : string) :
  let lines := split_on (ascii_of_nat 10) s in
  (Forall (fun l => TrimSpace l = EmptyString) lines
   /\ trimTrailingBlankLines TrimSpace s = EmptyString)
  \/ (exists j,
        (j < List.length lines)%nat
        /\ lastNonBlank_from TrimSpace lines (List.length lines) = Z.of_nat j
        /\ TrimSpace (nth j lines EmptyString) <> EmptyString
        /\ Forall (fun l => TrimSpace l = EmptyString) (skipn (S j) lines)
        /\ trimTrailingBlankLines TrimSpace s = Join (firstn (S j) lines) newline).
Proof.
  intros lines. unfold trimTrailingBlankLines. fold lines.
  destruct (lastNonBlank_from_spec TrimSpace lines (List.length lines))
    as [[Hk Hall] | (j & Hk & Hj & Hnb & Hall)]; rewrite Hk.
  - left. split; [|reflexivity].
    rewrite <- (skipn_O lines). apply Forall_skipn_nth. intros i Hi. apply Hall; lia.
  - right. exists j.
    destruct (Z.eqb_spec (Z.of_nat j) (-1)); [lia|].
    replace (Z.to_nat (Z.of_nat j + 1)) with (S j) by lia.
    repeat split; auto.
    apply Forall_skipn_nth. intros i Hi. apply Hall; lia.
Qed.

(** X20. [trimTrailingBlankLines] takes off the blank lines at the end and
    nothing else.  Either every line of the screen is blank and the result
    is empty, or the lines of the screen are the lines of the result followed
    by blank lines only, and the last line of the result is not blank.  The
    result is always a prefix of the screen, and a screen whose last line is
    not blank is returned as it is.  (A line is blank when [TrimSpace] makes
    it empty.) *)
Theorem trimTrailingBlankLines_removes_only_blank_tail
    (TrimSpace : string -> string) (s : string) :
  let nl := ascii_of_nat 10 in
  let blank := fun l => TrimSpace l = EmptyString in
  let result := trimTrailingBlankLines TrimSpace s in
  ((Forall blank (split_on nl s) /\ result = EmptyString)
   \/ (exists blanks,
         split_on nl s = split_on nl result ++ blanks
         /\ Forall blank blanks
         /\ ~ blank (last (split_on nl result) EmptyString)))
  /\ (exists rest, s = (result ++ rest)%string)
  /\ (~ blank (last (split_on nl s) EmptyString) -> result = s).
Proof.
  intros nl blank result.
  pose proof (split_on_free nl s) as Hfree.
  destruct (split_on_cons nl s) as (l0 & ls0 & Hlines).
  assert (Hcase : (Forall blank (split_on nl s) /\ result = EmptyString)
                  \/ exists j,
                       (j < List.length (split_on nl s))%nat
                       /\ ~ blank (nth j (split_on nl s) EmptyString)
                       /\ Forall blank (skipn (S j) (split_on nl s))
                       /\ result = Join (firstn (S j) (split_on nl s)) newline)
    by (destruct (trim_lines TrimSpace s) as [H | (j & Hj & _ & Hnb & Hbl & Hres)];
        [left; exact H | right; exists j; auto]).
  assert (Hsplit : forall j, (j < List.length (split_on nl s))%nat ->
            split_on nl (Join (firstn (S j) (split_on nl s)) newline)
            = firstn (S j) (split_on nl s)).
  { intros j Hj. change newline with (String nl EmptyString). apply split_on_Join.
    - rewrite Hlines. discriminate.
    - apply Forall_firstn_lines. exact Hfree. }
  split; [|split].
  - destruct Hcase as [H | (j & Hj & Hnb & Hbl & Hres)]; [left; exact H|].
    right. exists (skipn (S j) (split_on nl s)).
    rewrite Hres, Hsplit by exact Hj.
    split; [symmetry; apply firstn_skipn|].
    split; [exact Hbl|].
    rewrite last_firstn_nth by exact Hj. exact Hnb.
  - destruct Hcase as [[_ ->] | (j & Hj & _ & _ & ->)]; [exists s; reflexivity|].
    destruct (Join_firstn_prefix newline (split_on nl s) j) as (rest & Hrest).
    exists rest. rewrite <- Hrest. symmetry. apply (Join_split_on nl).
  - intros Hlast.
    pose proof (nth_pred_last (split_on nl s)) as Hn.
    destruct Hcase as [[Hall _] | (j & Hj & Hnb & Hbl & ->)].
    + exfalso. apply Hlast. rewrite <- Hn.
      rewrite Forall_forall in Hall. apply Hall, nth_In. rewrite Hlines; simpl; lia.
    + assert (Hjlast : S j = List.length (split_on nl s)).
      { destruct (Nat.eq_dec (S j) (List.length (split_on nl s))) as [E | E]; [exact E|].
        exfalso. apply Hlast. rewrite <- Hn.
        rewrite Forall_forall in Hbl. apply Hbl.
        replace (nth (List.length (split_on nl s) - 1) (split_on nl s) EmptyString)
          with (nth (List.length (split_on nl s) - 1 - S j)
                  (skipn (S j) (split_on nl s)) EmptyString)
          by (rewrite nth_skipn; f_equal; lia).
        apply nth_In. rewrite length_skipn. lia. }
      rewrite Hjlast, firstn_all. apply (Join_split_on nl).
Qed.

(** A screen of two lines of text followed by a line of spaces and an empty
    line keeps its two lines; a screen without blank line at its end is
    unchanged. *)
Lemma trimTrailingBlankLines_removes_only_blank_tail_witness :
  trimTrailingBlankLines trim_spaces
    ("ab" ++ newline ++ " c " ++ newline ++ "  " ++ newline)%string
  = ("ab" ++ newline ++ " c ")%string
  /\ trimTrailingBlankLines trim_spaces ("ab" ++ newline ++ " c ")%string
     = ("ab" ++ newline ++ " c ")%string.
Proof.
  split; [reflexivity|].
  apply (@trimTrailingBlankLines_removes_only_blank_tail trim_spaces
           ("ab" ++ newline ++ " c ")%string).
  discriminate.
Defined.

Lemma trim_empty (TrimSpace : string -> string) :
  trimTrailingBlankLines TrimSpace EmptyString = EmptyString.
Proof.
  unfold trimTrailingBlankLines. simpl.
  destruct (negb (String.eqb (TrimSpace EmptyString) EmptyString)); reflexivity.
Qed.

(** X21. [trimTrailingBlankLines] is idempotent: trimming a trimmed screen
    changes nothing. *)
Theorem trimTrailingBlankLines_idempotent (TrimSpace : string -> string) (s : string) :
  trimTrailingBlankLines TrimSpace (trimTrailingBlankLines TrimSpace s)
  = trimTrailingBlankLines TrimSpace s.
Proof.
  destruct (trim_lines TrimSpace s) as [[_ ->] | (j & Hj & _ & Hnb & _ & ->)].
  - apply trim_empty.
  - set (lines := split_on (ascii_of_nat 10) s) in *.
    assert (Hsplit : split_on (ascii_of_nat 10) (Join (firstn (S j) lines) newline)
                     = firstn (S j) lines).
    { change newline with (String (ascii_of_nat 10) EmptyString). apply split_on_Join.
      - destruct lines; [simpl in Hj; lia | discriminate].
      - apply Forall_firstn_lines. apply split_on_free. }
    unfold trimTrailingBlankLines at 1. rewrite Hsplit.
    rewrite length_firstn, Nat.min_l by lia.
    cbn [lastNonBlank_from].
    rewrite nth_firstn.
    replace (j <? S j)%nat with true by (symmetry; apply Nat.ltb_lt; lia).
    destruct (String.eqb_spec (TrimSpace (nth j lines EmptyString)) EmptyString) as [E | _];
      [contradiction|].
    cbn [negb].
    destruct (Z.eqb_spec (Z.of_nat j) (-1)); [lia|].
    replace (Z.to_nat (Z.of_nat j + 1)) with (S j) by lia.
    rewrite firstn_firstn, Nat.min_id. reflexivity.
Qed.

(** ** Nothing but the recognised queries is intercepted *)

Lemma firstn_skipn_at3 (data : bytes) (i : Z) :
  0 <= i -> i + 3 <= len data ->
  firstn 3 (skipn (Z.to_nat i) data) = [at_ data i; at_ data (i + 1); at_ data (i + 2)].
Proof.
  intros H0 H3.
  rewrite (skipn_at data (i := i)) by lia.
  rewrite (skipn_at data (i := i + 1)) by lia.
  rewrite (skipn_at data (i := i + 1 + 1)) by lia.
  replace (i + 1 + 1) with (i + 2) by lia. reflexivity.
Qed.

Lemma firstn_skipn_at4 (data : bytes) (i : Z) :
  0 <= i -> i + 4 <= len data ->
  firstn 4 (skipn (Z.to_nat i) data)
  = [at_ data i; at_ data (i + 1); at_ data (i + 2); at_ data (i + 3)].
Proof.
  intros H0 H4.
  rewrite (skipn_at data (i := i)) by lia.
  rewrite (skipn_at data (i := i + 1)) by lia.
  rewrite (skipn_at data (i := i + 1 + 1)) by lia.
  rewrite (skipn_at data (i := i + 1 + 1 + 1)) by lia.
  replace (i + 1 + 1 + 1) with (i + 3) by lia.
  replace (i + 1 + 1) with (i + 2) by lia. reflexivity.
Qed.

Lemma firstn_skipn_at5 (data : bytes) (i : Z) :
  0 <= i -> i + 5 <= len data ->
  firstn 5 (skipn (Z.to_nat i) data)
  = [at_ data i; at_ data (i + 1); at_ data (i + 2); at_ data (i + 3); at_ data (i + 4)].
Proof.
  intros H0 H5.
  rewrite (skipn_at data (i := i)) by lia.
  rewrite (skipn_at data (i := i + 1)) by lia.
  rewrite (skipn_at data (i := i + 1 + 1)) by lia.
  rewrite (skipn_at data (i := i + 1 + 1 + 1)) by lia.
  rewrite (skipn_at data (i := i + 1 + 1 + 1 + 1)) by lia.
  replace (i + 1 + 1 + 1 + 1) with (i + 4) by lia.
  replace (i + 1 + 1 + 1) with (i + 3) by lia.
  replace (i + 1 + 1) with (i + 2) by lia. reflexivity.
Qed.

(** Case analysis on the byte tests of a goal, keeping what each test found. *)
Ltac bcases_eq :=
  repeat match goal with
  | |- context [Byte.eqb ?a ?b] =>
      let E := fresh "E" in
      destruct (Byte.eqb a b) eqn:E; [apply Byte.byte_dec_bl in E|]
  end.

Ltac found_prefix data i :=
  match goal with
  | |- exists q, In q recognised_prefixes /\ firstn (List.length q) _ = q =>
      first
        [ exists [at_ data i; at_ data (i + 1); at_ data (i + 2)];
          split; [|cbn [List.length]; apply firstn_skipn_at3; lia];
          repeat match goal with H : at_ data _ = _ |- _ => rewrite H; clear H end;
          cbn; tauto
        | exists [at_ data i; at_ data (i + 1); at_ data (i + 2); at_ data (i + 3)];
          split; [|cbn [List.length]; apply firstn_skipn_at4; lia];
          repeat match goal with H : at_ data _ = _ |- _ => rewrite H; clear H end;
          cbn; tauto
        | exists [at_ data i; at_ data (i + 1); at_ data (i + 2); at_ data (i + 3);
                  at_ data (i + 4)];
          split; [|cbn [List.length]; apply firstn_skipn_at5; lia];
          repeat match goal with H : at_ data _ = _ |- _ => rewrite H; clear H end;
          cbn; tauto ]
  end.

Lemma tryHandleXTWINOPS_pattern (t : Terminal) (data : bytes) (i skip : Z) (w w' : World) :
  0 <= i -> at_ data i = ESC -> at_ data (i + 1) = "["%byte ->
  tryHandleXTWINOPS t data i w = (skip, w') ->
  skip = 0
  \/ exists q, In q recognised_prefixes
               /\ firstn (List.length q) (skipn (Z.to_nat i) data) = q.
Proof.
  intros Hi Hesc Hcsi.
  unfold tryHandleXTWINOPS, bind, ret,
    respondToWindowSizePixels, respondToTextAreaSize, respondToScreenSize,
    ptyFile_WriteString, emit.
  zcases; bcases_eq; cbn [andb negb]; intros [= <- <-];
    solve [left; reflexivity | exfalso; congruence | right; found_prefix data i].
Qed.

Lemma tryHandleCSIQuery_pattern (t : Terminal) (data : bytes) (i skip : Z) (w w' : World) :
  0 <= i -> at_ data i = ESC ->
  tryHandleCSIQuery t data i w = (skip, w') ->
  skip = 0
  \/ exists q, In q recognised_prefixes
               /\ firstn (List.length q) (skipn (Z.to_nat i) data) = q.
Proof.
  intros Hi Hesc.
  unfold tryHandleCSIQuery, bind.
  destruct (tryHandleXTWINOPS t data i w) as [s1 w1] eqn:Hxeq.
  assert (Hxt : at_ data (i + 1) = "["%byte ->
                (if s1 >? 0 then ret s1 else ret 0) w1 = (skip, w') ->
                skip = 0
                \/ exists q, In q recognised_prefixes
                             /\ firstn (List.length q) (skipn (Z.to_nat i) data) = q).
  { intros Hcsi.
    destruct (@tryHandleXTWINOPS_pattern t data i s1 w w1 Hi Hesc Hcsi Hxeq) as [-> | H].
    - cbv [Z.gtb Z.compare ret]; intros [= <- _]; left; reflexivity.
    - intros _; right; exact H. }
  unfold ret, respondToDA1, respondToDA2, ptyFile_WriteString, emit in *.
  zcases; bcases_eq; cbn [andb orb negb]; cbv beta; rewrite ?Hxeq;
    try (apply Hxt; assumption);
    intros [= <- <-];
    solve [left; reflexivity | exfalso; congruence | right; found_prefix data i].
Qed.

Lemma tryHandleOSCQuery_pattern (t : Terminal) (data : bytes) (i skip : Z) (w w' : World) :
  0 <= i -> at_ data i = ESC ->
  tryHandleOSCQuery t data i w = (skip, w') ->
  skip = 0
  \/ exists q, In q recognised_prefixes
               /\ firstn (List.length q) (skipn (Z.to_nat i) data) = q.
Proof.
  intros Hi Hesc.
  unfold tryHandleOSCQuery, bind, ret,
    respondToBackgroundColorQuery, respondToForegroundColorQuery,
    ptyFile_WriteString, emit.
  destruct (findOSCEnd t data (i + 5) >? i);
    zcases; bcases_eq; cbn [andb orb negb]; intros [= <- <-];
    solve [left; reflexivity | exfalso; congruence | right; found_prefix data i].
Qed.

(** X22. Nothing but the recognised queries is intercepted.  Wherever the
    scanning loop finds a match at an escape character, the buffer holds
    there one of the seven CSI queries or one of the two OSC colour prefixes;
    at an escape character followed by anything else (cursor movement,
    colours, device status reports) the result is 0 and the world is as
    before. *)
Theorem only_recognised_queries_are_intercepted
    (t : Terminal) (data : bytes) (i skip : Z) (w w' : World) :
  0 <= i -> at_ data i = ESC ->
  tryHandleQuery t data i w = (skip, w') ->
  (skip = 0 /\ w' = w)
  \/ exists q, In q recognised_prefixes
               /\ firstn (List.length q) (skipn (Z.to_nat i) data) = q.
Proof.
  intros Hi Hesc Htry.
  destruct (@tryHandleQuery_result t data i skip w w' Hi Htry) as [H | (Hskip & _)];
    [left; exact H|].
  right. revert Htry. unfold tryHandleQuery, bind.
  destruct (tryHandleCSIQuery t data i w) as [s1 w1] eqn:Hc.
  destruct (@tryHandleCSIQuery_pattern t data i s1 w w1 Hi Hesc Hc) as [-> | H];
    [|intros _; exact H].
  change (0 >? 0) with false; cbv beta iota.
  destruct (tryHandleOSCQuery t data i w1) as [s2 w2] eqn:Ho.
  destruct (@tryHandleOSCQuery_pattern t data i s2 w1 w2 Hi Hesc Ho) as [-> | H];
    [|intros _; exact H].
  cbv [Z.gtb Z.compare ret]. intros [= <- _]. lia.
Qed.

(** A cursor-position report request ESC [ 6 n and a cursor movement
    ESC [ 1 ; 1 H are not matched. *)
Lemma only_recognised_queries_are_intercepted_witness :
  tryHandleQuery default_session [ESC; "["%byte; "6"%byte; "n"%byte] 0 [] = (0, [])
  /\ tryHandleQuery default_session
       [ESC; "["%byte; "1"%byte; ";"%byte; "1"%byte; "H"%byte] 0 [] = (0, []).
Proof.
  split.
  - destruct (@only_recognised_queries_are_intercepted default_session
                [ESC; "["%byte; "6"%byte; "n"%byte] 0 0 [] []) as [[_ _] | (q & Hin & Hq)];
      [lia | reflexivity | reflexivity | reflexivity |].
    reflexivity.
  - reflexivity.
Defined.

(** ** Resizing and the size queries together *)

Lemma Resize_success_fields (os : OS) (t : Terminal) (c r : Z) (w : World)
    (t' : Terminal) (w' : World) :
  Resize os t c r w = ((None, t'), w') ->
  valid_dimension r /\ valid_dimension c /\ rows t' = r /\ cols t' = c.
Proof.
  unfold Resize, bind, pty_Setsize, ret, valid_dimension.
  zcases; cbn [orb]; try discriminate.
  destruct (setsize_error os w _); [discriminate|].
  intros [= <- _]. cbn [rows cols]. lia.
Qed.

(** X23. The size queries follow a resize.  After a [Resize] to [c] columns
    and [r] rows that succeeded, the three size queries are answered from
    the new size: ESC [ 1 4 t with ESC [ 4 ; r*16 ; c*8 t, ESC [ 1 8 t with
    ESC [ 8 ; r ; c t and ESC [ 1 9 t with ESC [ 9 ; r ; c t, and none of them
    leaves a byte for the model. *)
Theorem size_queries_follow_Resize (os : OS) (t : Terminal) (c r : Z) (w : World)
    (t' : Terminal) (w' : World) :
  Resize os t c r w = ((None, t'), w') ->
  forall w2,
    handleTerminalQueries t' [ESC; "["%byte; "1"%byte; "4"%byte; "t"%byte] w2
      = (Some [], w2 ++ [EvWriteString
           (ESC :: bytes_of "[4;" ++ itoa (r * 16) ++ bytes_of ";" ++ itoa (c * 8)
                ++ bytes_of "t")])
    /\ handleTerminalQueries t' [ESC; "["%byte; "1"%byte; "8"%byte; "t"%byte] w2
      = (Some [], w2 ++ [EvWriteString
           (ESC :: bytes_of "[8;" ++ itoa r ++ bytes_of ";" ++ itoa c ++ bytes_of "t")])
    /\ handleTerminalQueries t' [ESC; "["%byte; "1"%byte; "9"%byte; "t"%byte] w2
      = (Some [], w2 ++ [EvWriteString
           (ESC :: bytes_of "[9;" ++ itoa r ++ bytes_of ";" ++ itoa c ++ bytes_of "t")]).
Proof.
  intros Hres w2.
  destruct (Resize_success_fields _ _ _ _ _ Hres) as (Hr & Hc & Hrows & Hcols).
  assert (Hone : forall q r0,
            tryHandleQuery t' (q ++ []) 0 w2 = (len q, w2 ++ [EvWriteString r0])
            /\ 1 < len (q ++ []) /\ at_ (q ++ []) 0 = ESC /\ q <> [] ->
            handleTerminalQueries t' q w2 = (Some [], w2 ++ [EvWriteString r0])).
  { intros q r0 Hq.
    pose proof (@handle_recognised t' [] q r0 [] w2 Hq (Forall_nil _)) as H.
    rewrite app_nil_r in H. exact H. }
  split; [|split].
  - apply Hone. split; [|split; [reflexivity | split; [reflexivity | discriminate]]].
    change [ESC; "["%byte; "1"%byte; "4"%byte; "t"%byte] with pixel_query.
    rewrite (pixel_query_recognised t' [] w2), Hrows, Hcols.
    rewrite (wrap64_cell (k := 16) Hr), (wrap64_cell (k := 8) Hc) by lia.
    reflexivity.
  - apply Hone. rewrite <- Hrows, <- Hcols.
    apply size_in_chars_recognised. left; reflexivity.
  - apply Hone. rewrite <- Hrows, <- Hcols.
    apply size_in_chars_recognised. right; left; reflexivity.
Qed.

(** After [Resize(132, 43)] the pixel query is answered ESC[4;688;1056t. *)
Lemma size_queries_follow_Resize_witness :
  let t' := snd (fst (Resize os_ok default_session 132 43 [])) in
  handleTerminalQueries t' [ESC; "["%byte; "1"%byte; "4"%byte; "t"%byte] []
  = (Some [], [EvWriteString (ESC :: bytes_of "[4;688;1056t")]).
Proof.
  intros t'.
  exact (proj1 (@size_queries_follow_Resize os_ok default_session 132 43 [] t'
                  [EvSetsize (mkWinsize 43 132)] eq_refl [])).
Defined.
